(** * ir_web: the press registry, the repeat scheduler and the command sender

    A shallow embedding of [src/ir_web.py].

    - [send_scancodes_for_key] is a function on the log of [subprocess.run]
      invocations; what the external [ir-ctl] tool answers is a parameter.
    - The server is a labelled transition system.  The handler of a request
      and every statement of a worker thread is one transition; the blocks
      under [with active_lock:] are single transitions, which is what the
      lock provides.  Time is a rational number of seconds read from the
      monotonic clock; it advances by [Tick] transitions, so the time a
      statement takes (a blocking [subprocess.run], a scheduling delay) is
      the time that passes before the thread's next transition.
    - A worker thread has no [try]: an exception raised by one of its
      statements ends it on the spot.  Three of them can raise.  [print]
      raises [UnicodeEncodeError] when [sys.stdout] cannot encode the line;
      which texts it encodes is a parameter, and [sys.stdout] stays open
      and writable.  The division of l.94 raises
      [OverflowError] when [REPEAT_INTERVAL_MS] is too large for a float,
      and [stop_event.wait] raises it when the interval exceeds
      [threading.TIMEOUT_MAX] and the event is not set.
    - Floats are rationals or one of [inf], [-inf], [nan], which
      [--max-hold] accepts; rounding is not modelled.  Strings are kept as
      UTF-8; a lone surrogate, which [json.loads] accepts as an escape, is
      kept as the three bytes ED A0..BF xx.
    - [action], [client_id] and [key] of a request are strings, as the
      interface prescribes; [th.start()] does not fail, and every invocation
      of the tool returns.  Of what is printed, only the lines of the worker
      threads are kept; the access log of the handler is left out and taken
      to be printed. *)

From Stdlib Require Import QArith Qminmax Qround Lqa.
From Stdlib Require Import Ascii.
From stdpp Require Import gmap strings list pretty.

(** ** Python floats *)

Inductive pyfloat :=
| Finite (q : Q)
| PosInf
| NegInf
| NaN.

(** [x >= y] and [x > y]; every comparison with [nan] is false. *)
Definition fge (x y : pyfloat) : bool :=
  match x, y with
  | NaN, _ | _, NaN => false
  | PosInf, _ => true
  | _, NegInf => true
  | NegInf, _ => false
  | _, PosInf => false
  | Finite a, Finite b => Qle_bool b a
  end.

Definition fgt (x y : pyfloat) : bool :=
  match x, y with
  | NaN, _ | _, NaN => false
  | PosInf, PosInf => false
  | PosInf, _ => true
  | NegInf, _ => false
  | Finite _, NegInf => true
  | Finite _, PosInf => false
  | Finite a, Finite b => negb (Qle_bool a b)
  end.

(** [max(a, b)]: the first argument unless the second is greater. *)
Definition py_max (a b : pyfloat) : pyfloat := if fgt b a then b else a.

(** ** Python strings *)

(** The UTF-8 text holds a surrogate: a byte ED followed by a byte from A0
    on. *)
Fixpoint has_surrogate (s : string) : bool :=
  match s with
  | String a (String b _ as rest) =>
      (Nat.eqb (nat_of_ascii a) 237 && (160 <=? nat_of_ascii b)%nat)
      || has_surrogate rest
  | _ => false
  end.

(** What a [sys.stdout] with encoding utf-8 and errors="strict" encodes:
    every text without surrogates. *)
Definition utf8_strict (s : string) : bool := negb (has_surrogate s).

(** What a [sys.stdout] with encoding ascii encodes. *)
Fixpoint ascii_only (s : string) : bool :=
  match s with
  | EmptyString => true
  | String a rest => (nat_of_ascii a <? 128)%nat && ascii_only rest
  end.

(** The string ["\ud800"], as [json.loads] returns it for that escape. *)
Definition lone_surrogate : string :=
  String (ascii_of_nat 237)
    (String (ascii_of_nat 160) (String (ascii_of_nat 128) EmptyString)).

(** ** Decoded JSON values, as [json.load] returns them *)

Local Unset Elimination Schemes.
Inductive json :=
| JNull
| JBool (b : bool)
| JInt (n : Z)
| JFloat (x : pyfloat)
| JStr (s : string)
| JList (l : list json)
| JDict (m : list (string * json)).
Local Set Elimination Schemes.

(** ** The transmit tool *)

(** What [subprocess.run(cmd, check=True)] does: it returns, or raises. *)
Inductive run_result :=
| Completed
| CalledProcessError (returncode : Z)
| FileNotFoundError
| OtherException (e : string).

(** One invocation of [subprocess.run]: the argument vector, and how the
    invocation ended. *)
Record call := Call { argv : list string; outcome : run_result }.

Definition py_bool (b : bool) : string := if b then "True" else "False".

(** ** Worker threads *)

(** The statements of [repeat_thread_func] that can raise. *)
Inductive site :=
| At93     (* print of the initial send *)
| At94     (* REPEAT_INTERVAL_MS / 1000.0 *)
| At98     (* print "reached max hold" *)
| At100    (* stop_event.wait(interval) *)
| At103    (* print of a repeat send *)
| At106.   (* print "thread exit", after the pop *)

(** The statement a worker thread executes next, by line of
    [repeat_thread_func]; the local variables alive there are arguments.
    [Exited]: the function has returned.  [Raised]: an exception raised at
    that statement has ended the thread. *)
Inductive pc :=
| L91                              (* start = time.monotonic() *)
| L92 (start : Q)                  (* initial send, print, interval *)
| L95 (start : Q)                  (* while not stop_event.is_set() *)
| L96 (start : Q)                  (* elapsed; if elapsed >= MAX_HOLD_S *)
| L100 (start : Q) (deadline : Q)  (* inside stop_event.wait(interval) *)
| L102 (start : Q)                 (* repeat send, print *)
| L104                             (* with active_lock: pop; print *)
| Exited
| Raised (line : site).

Record worker := Worker {
  w_client : string;
  w_key : string;
  w_stop : nat;       (* the Event object it was given *)
  w_pc : pc
}.

(** The value stored in [active_presses]:
    [{"thread": th, "stop_event": stop_event, "start_time": ...}]. *)
Record press := Press {
  thread : nat;
  stop_event : nat;
  start_time : Q
}.

(** ** Requests and responses *)

(** The body of a POST after [json.loads] and the three [data.get]:
    decoding failed, or the three fields ([None] when absent). *)
Inductive payload :=
| BadJson (e : string)
| Fields (action key client_id : option string).

(** A POST: [urlparse(self.path).path], and the body. *)
Record request := Request { path : string; body : payload }.

Inductive reply :=
| ReplyMsg (code : Z) (msg : string)      (* {"ok": True, "msg": msg} *)
| ReplyError (code : Z) (error : string)  (* {"ok": False, "error": error} *)
| NotFound.                               (* 404, b"Not found" *)

(** Python's truth value of [data.get(...)]: [None] and [""] are false. *)
Definition truthy (o : option string) : bool :=
  match o with
  | None => false
  | Some s => negb (String.eqb s "")
  end.

(** ** The state of the server *)

Record state := State {
  now : Q;                                        (* time.monotonic() *)
  active_presses : gmap (string * string) press;
  events : list bool;                             (* flag of each Event *)
  threads : list worker;
  hw_calls : list call;                           (* oldest first *)
  console : list string               (* lines printed by the workers *)
}.

Definition initial : state :=
  {| now := 0; active_presses := ∅; events := []; threads := [];
     hw_calls := []; console := [] |}.

(** What a statement of a worker does to the shared state. *)
Inductive effect :=
| ESend (repeated : bool)   (* send + print, l.92-93 or l.102-103 *)
| EMaxHold                  (* print "reached max hold", l.98 *)
| EPop.                     (* pop under the lock, print, l.104-106 *)

(** The transitions.  After [Shutdown] the main thread closes the server
    and the interpreter exits; the daemon threads may execute further
    statements until then and none is obliged to, so transitions after
    [Shutdown] are possible and never required. *)
Inductive label :=
| Tick (d : Q)        (* d seconds pass *)
| Post (r : request)  (* Handler.do_POST serves r *)
| Work (tid : nat)    (* worker tid executes its next statement *)
| Shutdown.           (* the main program signals every session, l.228-230 *)

(** The module-level configuration of the script and the world outside it. *)
Class Env := {
  KEYMAP : gmap string json;
  IR_DEVICE : string;
  repeat_interval : Z;       (* args.repeat_interval *)
  max_hold : pyfloat;        (* args.max_hold *)
  (** [threading.TIMEOUT_MAX], in seconds. *)
  TIMEOUT_MAX : Q;
  (** Python's [str()] on a decoded JSON value, used by the f-strings. *)
  py_str : json -> string;
  (** The answer of the transmit tool to an invocation, given the
      invocations before it. *)
  ir_ctl : list call -> list string -> run_result;
  (** [sys.stdout] encodes the text; [print] raises otherwise. *)
  stdout_encodes : string -> bool
}.

Section Server.

Context {env : Env}.

Definition REPEAT_INTERVAL_MS : Z := Z.max 1 repeat_interval.
Definition MAX_HOLD_S : pyfloat := py_max (Finite (1 # 10)) max_hold.

(** *** send_scancodes_for_key *)

Definition scancode_cmd (sc : json) : list string :=
  ["ir-ctl"; "-d"; IR_DEVICE; "--scancode"; "nec:" +:+ py_str sc].

(** The [for sc in scs] loop, l.78-88. *)
Fixpoint send_each (scs : list json) (calls : list call)
  : (bool * string) * list call :=
  match scs with
  | [] => ((true, "OK"), calls)
  | sc :: rest =>
      let cmd := scancode_cmd sc in
      let r := ir_ctl calls cmd in
      let calls' := calls ++ [Call cmd r] in
      match r with
      | Completed => send_each rest calls'
      | CalledProcessError returncode =>
          ((false, "Command failed: " +:+ String.concat " " cmd +:+ " -> "
                     +:+ pretty returncode), calls')
      | FileNotFoundError =>
          ((false, "ir-ctl not found (请安装 v4l-utils 或确保 ir-ctl 在 PATH)"),
           calls')
      | OtherException e => ((false, "执行出错: " +:+ e), calls')
      end
  end.

Definition send_scancodes_for_key (key_name : string) (calls : list call)
  : (bool * string) * list call :=
  match KEYMAP !! key_name with
  | None => ((false, "Unknown key: " +:+ key_name), calls)
  | Some (JList (sc :: rest)) => send_each (sc :: rest) calls
  | Some _ => ((false, "Key " +:+ key_name +:+ " has no scancodes"), calls)
  end.

(** *** repeat_thread_func *)

Definition interval : Q := inject_Z REPEAT_INTERVAL_MS / 1000.

(** l.94 raises "int too large to convert to float": the integer rounds to
    2^1024 or more. *)
Definition int_too_large : bool :=
  (2 ^ 1024 - 2 ^ 970 <=? REPEAT_INTERVAL_MS)%Z.

(** [stop_event.wait(interval)] on an event that is not set raises
    "timeout value is too large". *)
Definition wait_raises : bool := negb (Qle_bool interval TIMEOUT_MAX).

(** [elapsed >= MAX_HOLD_S], l.97. *)
Definition hold_reached (elapsed : Q) : bool := fge (Finite elapsed) MAX_HOLD_S.

(** The thread function, one statement at a time: the statement at [p],
    from what the thread observes, the clock and the flag of its stop
    event, up to the exceptions of [print], which [apply_effect] adds.
    [None]: the thread is blocked (in the wait) or has ended.  The wait of
    l.100 is entered in the transition that makes the check of l.96-97, so
    its deadline counts from the clock read there; it returns in a
    transition of its own, true as soon as the flag is set, false once the
    deadline has come. *)
Definition repeat_thread_func (t : Q) (is_set : bool) (p : pc)
  : option (pc * list effect) :=
  match p with
  | L91 => Some (L92 t, [])
  | L92 start =>
      Some (if int_too_large then Raised At94 else L95 start, [ESend false])
  | L95 start => Some (if is_set then L104 else L96 start, [])
  | L96 start =>
      let elapsed := (t - start)%Q in
      if hold_reached elapsed then Some (L104, [EMaxHold])
      else Some (L100 start (t + interval)%Q, [])
  | L100 start deadline =>
      if is_set then Some (L104, [])
      else if wait_raises then Some (Raised At100, [])
      else if Qle_bool deadline t then Some (L102 start, [])
      else None
  | L102 start => Some (L95 start, [ESend true])
  | L104 => Some (Exited, [EPop])
  | Exited | Raised _ => None
  end.

Definition send_line (client_id key_name : string) (repeated ok : bool)
  (msg : string) : string :=
  "[" +:+ client_id +:+ "] " +:+ key_name
    +:+ (if repeated then " repeat send -> " else " initial send -> ")
    +:+ py_bool ok +:+ ", " +:+ msg.

Definition max_hold_line (client_id key_name : string) : string :=
  "[" +:+ client_id +:+ "] " +:+ key_name +:+ " reached max hold "
    +:+ py_str (JFloat MAX_HOLD_S) +:+ "s, auto stopping.".

Definition exit_line (client_id key_name : string) : string :=
  "[" +:+ client_id +:+ "] " +:+ key_name +:+ " thread exit.".

(** [print(line)]: the line is written, or the call raises. *)
Definition print (line : string) (s : state) : option state :=
  if stdout_encodes line
  then Some {| now := now s; active_presses := active_presses s;
               events := events s; threads := threads s;
               hw_calls := hw_calls s; console := console s ++ [line] |}
  else None.

(** What an effect does to the state, and the site when its [print]
    raises: what came before the [print] is done. *)
Definition apply_effect (w : worker) (e : effect) (s : state)
  : state * option site :=
  match e with
  | ESend repeated =>
      let '((ok, msg), calls) := send_scancodes_for_key (w_key w) (hw_calls s) in
      let s1 := {| now := now s; active_presses := active_presses s;
                   events := events s; threads := threads s;
                   hw_calls := calls; console := console s |} in
      match print (send_line (w_client w) (w_key w) repeated ok msg) s1 with
      | Some s2 => (s2, None)
      | None => (s1, Some (if repeated then At103 else At93))
      end
  | EMaxHold =>
      match print (max_hold_line (w_client w) (w_key w)) s with
      | Some s1 => (s1, None)
      | None => (s, Some At98)
      end
  | EPop =>
      let s1 := {| now := now s;
                   active_presses :=
                     delete (w_client w, w_key w) (active_presses s);
                   events := events s; threads := threads s;
                   hw_calls := hw_calls s; console := console s |} in
      match print (exit_line (w_client w) (w_key w)) s1 with
      | Some s2 => (s2, None)
      | None => (s1, Some At106)
      end
  end.

(** The effects of a statement in order, up to the first that raises. *)
Fixpoint run_effects (w : worker) (effs : list effect) (s : state)
  : state * option site :=
  match effs with
  | [] => (s, None)
  | e :: rest =>
      match apply_effect w e s with
      | (s1, None) => run_effects w rest s1
      | (s1, Some at_) => (s1, Some at_)
      end
  end.

(** Where the thread is after a statement: where the statement leads, or
    ended at the site that raised. *)
Definition landing (p : pc) (r : option site) : pc :=
  match r with
  | Some at_ => Raised at_
  | None => p
  end.

Definition set_pc (tid : nat) (w : worker) (p : pc) (s : state) : state :=
  {| now := now s; active_presses := active_presses s; events := events s;
     threads := <[tid := Worker (w_client w) (w_key w) (w_stop w) p]> (threads s);
     hw_calls := hw_calls s; console := console s |}.

Definition work (tid : nat) (s : state) : option state :=
  match threads s !! tid with
  | None => None
  | Some w =>
      let is_set := default false (events s !! w_stop w) in
      match repeat_thread_func (now s) is_set (w_pc w) with
      | None => None
      | Some (p, effs) =>
          let '(s1, r) := run_effects w effs s in
          Some (set_pc tid w (landing p r) s1)
      end
  end.

(** *** Handler.do_POST *)

(** The branch [action == "click"], l.164-172. *)
Definition do_click (key : string) (s : state) : reply * state :=
  let '((ok, msg), calls) := send_scancodes_for_key key (hw_calls s) in
  let s' := {| now := now s; active_presses := active_presses s;
               events := events s; threads := threads s;
               hw_calls := calls; console := console s |} in
  if ok then (ReplyMsg 200 "sent", s') else (ReplyError 500 msg, s').

(** The branch [action == "down"], l.174-187. *)
Definition do_down (client_id key : string) (s : state) : reply * state :=
  let k := (client_id, key) in
  match active_presses s !! k with
  | Some _ => (ReplyMsg 200 "already down", s)
  | None =>
      let stop_event := length (events s) in
      let th := length (threads s) in
      (ReplyMsg 200 "started",
       {| now := now s;
          active_presses :=
            <[k := Press th stop_event (now s)]> (active_presses s);
          events := events s ++ [false];
          threads := threads s ++ [Worker client_id key stop_event L91];
          hw_calls := hw_calls s; console := console s |})
  end.

(** The branch [action == "up"], l.189-200. *)
Definition do_up (client_id key : string) (s : state) : reply * state :=
  let k := (client_id, key) in
  match active_presses s !! k with
  | None => (ReplyMsg 200 "not active", s)
  | Some info =>
      (ReplyMsg 200 "stopping",
       {| now := now s; active_presses := active_presses s;
          events := <[stop_event info := true]> (events s);
          threads := threads s; hw_calls := hw_calls s;
          console := console s |})
  end.

Definition do_POST (r : request) (s : state) : reply * state :=
  if negb (String.eqb (path r) "/action") then (NotFound, s) else
  match body r with
  | BadJson e => (ReplyError 400 ("invalid json: " +:+ e), s)
  | Fields action key client_id =>
      if negb (truthy action && truthy key && truthy client_id)
      then (ReplyError 400 "missing action/key/client_id", s) else
      let action := default "" action in
      let key := default "" key in
      let client_id := default "" client_id in
      if String.eqb action "click" then do_click key s
      else if String.eqb action "down" then do_down client_id key s
      else if String.eqb action "up" then do_up client_id key s
      else (ReplyError 400 "unknown action", s)
  end.

(** *** The server *)

(** The [finally] block of the main program: every registered stop event
    is set. *)
Definition shutdown (s : state) : state :=
  {| now := now s; active_presses := active_presses s;
     events := foldl (fun ev '(k, info) => <[stop_event info := true]> ev)
                 (events s) (map_to_list (active_presses s));
     threads := threads s; hw_calls := hw_calls s; console := console s |}.

Definition step (l : label) (s : state) : option state :=
  match l with
  | Tick d =>
      if Qle_bool 0 d then
        Some {| now := (now s + d)%Q; active_presses := active_presses s;
                events := events s; threads := threads s;
                hw_calls := hw_calls s; console := console s |}
      else None
  | Post r => Some (snd (do_POST r s))
  | Work tid => work tid s
  | Shutdown => Some (shutdown s)
  end.

Fixpoint exec (ls : list label) (s : state) : option state :=
  match ls with
  | [] => Some s
  | l :: ls' =>
      match step l s with
      | Some s' => exec ls' s'
      | None => None
      end
  end.

Definition reachable (s : state) : Prop :=
  exists ls, exec ls initial = Some s.

(** *** Notions used in the statements *)

(** A well-formed request for [action] on a pair. *)
Definition action_request (action client_id key : string) : request :=
  Request "/action" (Fields (Some action) (Some key) (Some client_id)).

(** The calls a successful transmission of [scs] appends to the log. *)
Definition sent (scs : list json) : list call :=
  (fun sc => Call (scancode_cmd sc) Completed) <$> scs.

(** The tool completes every one of [scs], asked in this order. *)
Fixpoint all_complete (scs : list json) (calls : list call) : bool :=
  match scs with
  | [] => true
  | sc :: rest =>
      match ir_ctl calls (scancode_cmd sc) with
      | Completed => all_complete rest (calls ++ sent [sc])
      | _ => false
      end
  end.

(** The message of a failed invocation, read off l.82-87. *)
Definition failure_message (cmd : list string) (r : run_result) : string :=
  match r with
  | Completed => "OK"
  | CalledProcessError returncode =>
      "Command failed: " +:+ String.concat " " cmd +:+ " -> "
        +:+ pretty returncode
  | FileNotFoundError =>
      "ir-ctl not found (请安装 v4l-utils 或确保 ir-ctl 在 PATH)"
  | OtherException e => "执行出错: " +:+ e
  end.

(** The worker has not removed its entry: it has not executed the pop of
    l.105.  A thread that an exception ended before the pop stays so. *)
Definition live (w : worker) : bool :=
  match w_pc w with
  | Exited | Raised At106 => false
  | _ => true
  end.

(** The thread has a next statement: it has neither returned nor been
    ended by an exception. *)
Definition running (p : pc) : bool :=
  match p with
  | Exited | Raised _ => false
  | _ => true
  end.


Definition in_loop (p : pc) : bool :=
  match p with
  | L95 _ | L96 _ | L100 _ _ | L102 _ => true
  | _ => false
  end.

Definition pair_of (w : worker) : string * string := (w_client w, w_key w).

(** The registry and the workers agree: an entry is the entry of one
    live worker, and a live worker has its entry. *)
Record consistent (s : state) : Prop := {
  entry_worker : forall k info,
    active_presses s !! k = Some info ->
    exists w, threads s !! thread info = Some w /\ pair_of w = k
              /\ w_stop w = stop_event info /\ live w = true;
  worker_entry : forall tid w,
    threads s !! tid = Some w -> live w = true ->
    exists info, active_presses s !! pair_of w = Some info
                 /\ thread info = tid;
  stop_allocated : forall tid w,
    threads s !! tid = Some w -> (w_stop w < length (events s))%nat
}.

(** What the clock [t] and the local variables of a worker satisfy. *)
Definition timely (t : Q) (p : pc) : Prop :=
  match p with
  | L92 start | L95 start | L96 start | L102 start => (start <= t)%Q
  | L100 start deadline =>
      (start <= t)%Q
      /\ forall h, MAX_HOLD_S = Finite h ->
                   (deadline < start + h + interval)%Q
  | _ => True
  end.

Definition on_time (s : state) : Prop :=
  forall tid w, threads s !! tid = Some w -> timely (now s) (w_pc w).

(** The number of statements worker [tid] executes in a run. *)
Fixpoint work_count (tid : nat) (ls : list label) : nat :=
  match ls with
  | [] => 0
  | Work t :: rest =>
      ((if Nat.eqb t tid then 1 else 0) + work_count tid rest)%nat
  | _ :: rest => work_count tid rest
  end.

(** The number of waits after which a hold time of [h] seconds is used
    up. *)
Definition max_iterations (h : Q) : nat :=
  Z.to_nat (Qceiling (h / interval)).

(** [m] more waits use up what is left of the hold time [h]. *)
Definition credit (h t : Q) (p : pc) (m : nat) : Prop :=
  match p with
  | L91 => (h <= inject_Z (Z.of_nat m) * interval)%Q
  | L92 start =>
      (start <= t)%Q /\ (h <= inject_Z (Z.of_nat m) * interval)%Q
  | L95 start | L96 start | L102 start =>
      (h - (t - start) <= inject_Z (Z.of_nat m) * interval)%Q
  | L100 start deadline =>
      (h - (deadline - start) <= inject_Z (Z.of_nat m) * interval)%Q
  | L104 | Exited | Raised _ => True
  end.

(** The statements left to a worker at [p] that has [m] waits left. *)
Definition steps_left (p : pc) (m : nat) : nat :=
  match p with
  | L91 => 4 * m + 5
  | L92 _ => 4 * m + 4
  | L95 _ => 4 * m + 3
  | L96 _ => 4 * m + 2
  | L100 _ _ => 4 * m + 5
  | L102 _ => 4 * m + 4
  | L104 => 1
  | Exited | Raised _ => 0
  end.

(** Worker [tid], started or not, has at most [B] statements left when
    the hold time is [h]. *)
Definition budget (h : Q) (s : state) (tid B : nat) : Prop :=
  match threads s !! tid with
  | Some w =>
      exists m, credit h (now s) (w_pc w) m /\ (steps_left (w_pc w) m <= B)%nat
  | None => (steps_left L91 (max_iterations h) <= B)%nat
  end.

(** Of the [d] seconds that pass from state [s], the part worker [tid]
    spends inside the wait of l.100, before the deadline of the wait. *)
Definition waited (tid : nat) (s : state) (d : Q) : Q :=
  match w_pc <$> threads s !! tid with
  | Some (L100 _ deadline) =>
      if Qle_bool (now s + d) deadline then d
      else if Qle_bool deadline (now s) then 0
      else (deadline - now s)%Q
  | _ => 0%Q
  end.

(** The time of a transition from [s], and of a run from [s], that worker
    [tid], once created, spends otherwise: starting up, executing its
    statements (the sends block), being delayed. *)
Definition busy_step (tid : nat) (l : label) (s : state) : Q :=
  match l, threads s !! tid with
  | Tick d, Some _ => (d - waited tid s d)%Q
  | _, _ => 0%Q
  end.

Fixpoint busy (tid : nat) (ls : list label) (s : state) : Q :=
  match ls with
  | [] => 0
  | l :: ls' =>
      match step l s with
      | None => 0
      | Some s' => (busy_step tid l s + busy tid ls' s')%Q
      end
  end.

(** What the clock [t], the time [st] of the registration and the busy
    time [b] since then satisfy, by the statement the worker is at, when
    the hold time is [h]. *)
Definition slack (h t st b : Q) (p : pc) : Prop :=
  match p with
  | L91 => (t - st <= b)%Q
  | L92 start | L95 start | L96 start | L102 start =>
      (start - st <= b)%Q /\ (t - st - b < h + interval)%Q
  | L100 start deadline =>
      (start - st <= b)%Q /\ (t - st - b < h + interval)%Q
      /\ (deadline - st - b < h + interval)%Q
  | L104 => (t - st - b < h + interval)%Q
  | Exited | Raised _ => True
  end.

(** Worker [tid], while registered, is within its slack when [b] is the
    busy time since its registration. *)
Definition in_slack (h : Q) (s : state) (tid : nat) (b : Q) : Prop :=
  forall w info,
    threads s !! tid = Some w -> live w = true ->
    active_presses s !! pair_of w = Some info ->
    slack h (now s) (start_time info) b (w_pc w).

(** The statements left to a worker whose stop event is set. *)
Definition rank (p : pc) : nat :=
  match p with
  | L91 => 4
  | L92 _ | L96 _ | L102 _ => 3
  | L95 _ | L100 _ _ => 2
  | L104 => 1
  | Exited | Raised _ => 0
  end.

(** What decides the schedule: everything but the log of invocations and
    the console. *)
Definition control (s : state)
  : Q * gmap (string * string) press * list bool * list worker :=
  (now s, active_presses s, events s, threads s).

(** A session that was never signalled is about to deregister no later
    than [bound] after it was registered. *)
Definition lifetime_within (bound : Q) (s : state) : Prop :=
  forall tid w info,
    threads s !! tid = Some w -> w_pc w = L104 ->
    events s !! w_stop w = Some false ->
    active_presses s !! pair_of w = Some info ->
    (now s - start_time info <= bound)%Q.

(** A session that is signalled by an "up" has deregistered when more than
    [bound] has passed since: an entry found for its pair after that is
    the entry of a later session. *)
Definition stops_within (bound : Q) : Prop :=
  forall ls1 ls2 s1 s2 client_id key info,
    client_id <> "" -> key <> "" ->
    exec ls1 initial = Some s1 ->
    active_presses s1 !! (client_id, key) = Some info ->
    exec (Post (action_request "up" client_id key) :: ls2) s1 = Some s2 ->
    (now s1 + bound < now s2)%Q ->
    forall info',
      active_presses s2 !! (client_id, key) = Some info' ->
      thread info' <> thread info.

(** The response to a "down" that starts a session carries the error of
    the session's initial send. *)
Definition down_reports_initial_send : Prop :=
  forall s client_id key msg calls,
    client_id <> "" -> key <> "" ->
    active_presses s !! (client_id, key) = None ->
    send_scancodes_for_key key (hw_calls s) = ((false, msg), calls) ->
    exists code,
      fst (do_POST (action_request "down" client_id key) s)
      = ReplyError code msg.


(** A session whose thread has ended is no longer registered. *)
Definition ended_sessions_are_deregistered : Prop :=
  forall s tid w,
    reachable s -> threads s !! tid = Some w -> running (w_pc w) = false ->
    forall info, active_presses s !! pair_of w = Some info ->
                 thread info <> tid.

(** A session that is never signalled executes at most [n] statements. *)
Definition unsignalled_ends_within (n : nat) : Prop :=
  forall ls s tid w,
    exec ls initial = Some s -> threads s !! tid = Some w ->
    events s !! w_stop w = Some false ->
    (work_count tid ls <= n)%nat.

(** *** Notions used in further statements *)

(** The JSON value is a list. *)
Definition is_list (v : json) : bool :=
  match v with
  | JList _ => true
  | _ => false
  end.

(** Every invocation of the log transmits a scancode of the key table, and
    ended as the tool answered on the log before it. *)
Definition from_table (calls : list call) : Prop :=
  forall i c,
    calls !! i = Some c ->
    exists key scs sc,
      KEYMAP !! key = Some (JList scs) /\ sc ∈ scs
      /\ argv c = scancode_cmd sc
      /\ outcome c = ir_ctl (take i calls) (argv c).

(** The worker is at a send: l.92 or l.102. *)
Definition at_send (p : pc) : bool :=
  match p with
  | L92 _ | L102 _ => true
  | _ => false
  end.

(** The number of sends worker [tid] makes in a run from [s]. *)
Fixpoint send_count (tid : nat) (ls : list label) (s : state) : nat :=
  match ls with
  | [] => 0
  | l :: ls' =>
      match step l s with
      | None => 0
      | Some s' =>
          ((match l, w_pc <$> threads s !! tid with
            | Work t, Some p => if Nat.eqb t tid && at_send p then 1 else 0
            | _, _ => 0
            end) + send_count tid ls' s')%nat
      end
  end.

(** The sends left to a worker at [p] that has [m] waits left. *)
Definition sends_left (p : pc) (m : nat) : nat :=
  match p with
  | L91 | L92 _ | L100 _ _ | L102 _ => m + 1
  | L95 _ | L96 _ => m
  | L104 | Exited | Raised _ => 0
  end.

(** The sends a worker at [p] still makes once its stop event is set: the
    initial send if it has not made it, the repeat send it is at. *)
Definition sends_when_signalled (p : pc) : nat :=
  match p with
  | L91 | L92 _ | L102 _ => 1
  | _ => 0
  end.

(** Worker [tid], started or not, has at most [B] sends left when the
    hold time is [h]. *)
Definition sends_budget (h : Q) (s : state) (tid B : nat) : Prop :=
  match threads s !! tid with
  | Some w =>
      exists m, credit h (now s) (w_pc w) m /\ (sends_left (w_pc w) m <= B)%nat
  | None => (max_iterations h + 1 <= B)%nat
  end.

(** The sends of one transition of a run, as [send_count] counts them. *)
Definition send_step (tid : nat) (l : label) (s : state) : nat :=
  match l, w_pc <$> threads s !! tid with
  | Work t, Some p => if Nat.eqb t tid && at_send p then 1 else 0
  | _, _ => 0
  end.

(** Since the clock read [t0] the worker has sent nothing, or it is about
    to send and an interval has passed. *)
Definition spaced (t0 t : Q) (p : pc) : Prop :=
  match p with
  | L91 | L92 _ => False
  | L95 _ | L96 _ => (t0 <= t)%Q
  | L100 _ deadline => (t0 <= t)%Q /\ (t0 + interval <= deadline)%Q
  | L102 _ => (t0 + interval <= t)%Q
  | L104 | Exited | Raised _ => True
  end.

(** The stop event of a worker is its own: it has the index of the
    thread, and there are as many events as threads. *)
Definition own_events (s : state) : Prop :=
  length (events s) = length (threads s)
  /\ forall tid w, threads s !! tid = Some w -> w_stop w = tid.

(** No session is registered, and no worker runs, for an empty client or
    key. *)
Definition named (s : state) : Prop :=
  (forall c k info, active_presses s !! (c, k) = Some info ->
                    c <> "" /\ k <> "")
  /\ (forall tid w, threads s !! tid = Some w ->
                    w_client w <> "" /\ w_key w <> "").

(** Why the statement at [p] of worker [w] raises in state [s] at the
    site. *)
Definition raises (w : worker) (s : state) (l : site) : Prop :=
  let result := fst (send_scancodes_for_key (w_key w) (hw_calls s)) in
  match l with
  | At93 =>
      (exists start, w_pc w = L92 start)
      /\ stdout_encodes (send_line (w_client w) (w_key w) false
                           (fst result) (snd result)) = false
  | At94 =>
      (exists start, w_pc w = L92 start) /\ int_too_large = true
  | At98 =>
      (exists start, w_pc w = L96 start
                     /\ hold_reached (now s - start) = true)
      /\ stdout_encodes (max_hold_line (w_client w) (w_key w)) = false
  | At100 =>
      (exists start deadline, w_pc w = L100 start deadline)
      /\ events s !! w_stop w <> Some true /\ wait_raises = true
  | At103 =>
      (exists start, w_pc w = L102 start)
      /\ stdout_encodes (send_line (w_client w) (w_key w) true
                           (fst result) (snd result)) = false
  | At106 =>
      w_pc w = L104
      /\ stdout_encodes (exit_line (w_client w) (w_key w)) = false
  end.

End Server.


(** ** Handler.do_GET *)

(** Python's [s.replace(old, new)] for a non-empty [old]: the occurrences
    of [old] are taken from the left, without overlap.  [skip] counts the
    characters of an occurrence still to be passed over. *)
Fixpoint replace_from (old new : string) (skip : nat) (s : string) : string :=
  match s with
  | EmptyString => EmptyString
  | String c s' =>
      match skip with
      | S k => replace_from old new k s'
      | O =>
          if String.prefix old s
          then new +:+ replace_from old new (String.length old - 1) s'
          else String c (replace_from old new 0 s')
      end
  end.

Definition py_replace (old new s : string) : string :=
  replace_from old new 0 s.

(** [old] occurs in [s]. *)
Fixpoint occurs (old s : string) : bool :=
  String.prefix old s
  || match s with
     | EmptyString => false
     | String _ s' => occurs old s'
     end.

Inductive get_reply :=
| Html (code : Z) (page : string)       (* text/html *)
| JsonBody (code : Z) (body : string)   (* application/json *)
| GetNotFound.                          (* 404, b"Not found" *)

Section Pages.

Context {env : Env}.

(** The template read at start-up, and [json.dumps(..., ensure_ascii=False)]
    of the two tables. *)
Variable HTML_TEMPLATE : string.
Variable dumps_KEYMAP : string.
Variable dumps_KEY_LAYOUT : string.

(** The page of l.126-131, [gen_uuid] being [str(uuid.uuid4())]. *)
Definition render (gen_uuid : string) : string :=
  py_replace "__GEN_UUID__" gen_uuid
    (py_replace "__MAX_HOLD__" (py_str (JFloat MAX_HOLD_S))
       (py_replace "__REPEAT_INTERVAL__" (pretty REPEAT_INTERVAL_MS)
          (py_replace "__KEY_LAYOUT_JSON__" dumps_KEY_LAYOUT
             (py_replace "__KEYMAP_JSON__" dumps_KEYMAP HTML_TEMPLATE)))).

Definition do_GET (path gen_uuid : string) : get_reply :=
  if String.eqb path "/" || String.eqb path "/index.html"
  then Html 200 (render gen_uuid)
  else if String.eqb path "/key.json" then JsonBody 200 dumps_KEYMAP
  else GetNotFound.

End Pages.

(** ** The scheduler as the design describes it *)

Module SpecScheduler.
Section Spec.

(** The configuration of the design: the interval, and the maximal hold,
    which may be infinite. *)
Variable interval : Q.
Variable maxHold : pyfloat.




(** What a step of the algorithm does to the world. *)
Inductive action :=
| Silent       (* nothing *)
| Send         (* the Command Sender is invoked once *)
| Deregister.  (* the entry is removed from the Press Registry *)


End Spec.
End SpecScheduler.


(** ** A concrete installation *)

Module Demo.

Definition keymap : gmap string json :=
  <["power" := JList [JStr "0x10"; JStr "0x11"]]>
    (<["mute" := JList []]> ∅).

Definition str (v : json) : string :=
  match v with
  | JStr s => s
  | JInt n => pretty n
  | JFloat _ => "5.0"     (* the only float printed is MAX_HOLD_S *)
  | _ => "?"
  end.

(** A tool that always succeeds, and one that always exits with 1. *)
Definition tool_ok (_ : list call) (_ : list string) : run_result :=
  Completed.
(** A tool that fails on the second invocation. *)
Definition tool_second_fails (calls : list call) (_ : list string)
  : run_result :=
  if Nat.eqb (length calls) 1 then CalledProcessError 1 else Completed.

(** The defaults of the script on 64-bit Linux, with a stdout that
    encodes utf-8. *)
Definition env_with (tool : list call -> list string -> run_result) : Env :=
  {| KEYMAP := keymap; IR_DEVICE := "/dev/lirc0"; repeat_interval := 100;
     max_hold := Finite 5; TIMEOUT_MAX := 9223372036; py_str := str;
     ir_ctl := tool; stdout_encodes := utf8_strict |}.

Definition env : Env := env_with tool_ok.

(** Started with [--max-hold inf]. *)
Definition forever : Env :=
  {| KEYMAP := keymap; IR_DEVICE := "/dev/lirc0"; repeat_interval := 100;
     max_hold := PosInf; TIMEOUT_MAX := 9223372036; py_str := str;
     ir_ctl := tool_ok; stdout_encodes := utf8_strict |}.

(** Started with [--repeat-interval 10000000000000000]. *)
Definition long_interval : Env :=
  {| KEYMAP := keymap; IR_DEVICE := "/dev/lirc0";
     repeat_interval := 10000000000000000;
     max_hold := Finite 5; TIMEOUT_MAX := 9223372036; py_str := str;
     ir_ctl := tool_ok; stdout_encodes := utf8_strict |}.

(** The same stdout, and a tool that never fails. *)
Definition ascii_stdout_ok : Env :=
  {| KEYMAP := keymap; IR_DEVICE := "/dev/lirc0"; repeat_interval := 100;
     max_hold := Finite 5; TIMEOUT_MAX := 9223372036; py_str := str;
     ir_ctl := tool_ok; stdout_encodes := ascii_only |}.

Definition down : label := Post (action_request "down" "c1" "power").
Definition up : label := Post (action_request "up" "c1" "power").

(** The state a run from [initial] ends in. *)
Definition run (e : Env) (ls : list label) : state :=
  default initial (@exec e ls initial).

(** "down", then the worker up to its first wait. *)
Definition to_wait : list label := [down; Work 0; Work 0; Work 0; Work 0].
Definition held : state := run env to_wait.

(** ... then "up". *)
Definition stopping : state := run env (to_wait ++ [up]).


(** A press that is never released, every send taking one second: the
    loop test passes at 1, 2.1, 3.2, 4.3 and fails at 5.4 seconds. *)
Definition slow_sends : list label :=
  [down; Work 0; Work 0; Tick 1]
    ++ concat (replicate 4 [Work 0; Work 0; Tick (1 # 10);
                            Work 0; Work 0; Tick 1])
    ++ [Work 0; Work 0].
Definition at_pop : state := run env slow_sends.
Definition returned : state := run env (slow_sends ++ [Work 0]).

(** "down", and the worker is in its initial send (l.92) ... *)
Definition to_send : list label := [down; Work 0; Work 0].
Definition sending : state := run env to_send.
(** ... when "up" arrives; the send returns a second later. *)
Definition still_sending : state := run env (to_send ++ [up; Tick 1]).

(** A "down" whose client id is ["\ud800"]: the thread makes its initial
    send and is ended by the print of l.93. *)
Definition odd_down : label :=
  Post (action_request "down" lone_surrogate "power").
Definition odd_up : label :=
  Post (action_request "up" lone_surrogate "power").
Definition to_dead : list label := [odd_down; Work 0; Work 0].
Definition dead : state := run env to_dead.


(** With the long interval: the thread is in its first wait. *)
Definition long_wait : state := run long_interval to_wait.

(** With the infinite hold: one pass of the loop, and the run of [n]
    passes after the initial send. *)
Definition pass : list label :=
  [Work 0; Work 0; Tick (1 # 10); Work 0; Work 0].
Definition passes (n : nat) : list label :=
  [down; Work 0; Work 0] ++ concat (replicate n pass).

End Demo.

(** Further states of the installation. *)
Module Sample.

(** A key table whose only key is defined by a string, not by a list. *)
Definition scalar_env : Env :=
  {| KEYMAP := <["power" := JStr "0x10"]> ∅; IR_DEVICE := "/dev/lirc0";
     repeat_interval := 100; max_hold := Finite 5;
     TIMEOUT_MAX := 9223372036; py_str := Demo.str;
     ir_ctl := Demo.tool_ok; stdout_encodes := utf8_strict |}.

(** The held key of the demo repeats once. *)
Definition one_repeat : list label := [Tick (1 # 10); Work 0; Work 0].
Definition repeated : state :=
  default initial (@exec Demo.env one_repeat Demo.held).

(** Two clients hold the same key. *)
Definition down2 : label := Post (action_request "down" "c2" "power").
Definition two_held : state := Demo.run Demo.env [Demo.down; down2].

(** From the loop test after the initial send to the repeat send. *)
Definition to_due : list label := [Work 0; Work 0; Tick (1 # 10); Work 0].
Definition due : state :=
  default initial (@exec Demo.env to_due Demo.sending).

(** A tap: "down", "up", and the thread has returned. *)
Definition tap : list label :=
  [Demo.down; Demo.up; Work 0; Work 0; Work 0; Work 0].
Definition tapped : state := Demo.run Demo.env tap.

(** The stopping session of the demo runs to its end. *)
Definition release : list label := [Work 0; Work 0].
Definition released : state :=
  default initial (@exec Demo.env release Demo.stopping).


Definition template : string := "<html><body>remote</body></html>".

End Sample.

(** * Properties *)

Lemma Qle_bool_false x y : Qle_bool x y = false -> (y < x)%Q.
Proof.
  intros H. apply Qnot_le_lt. intros Hle.
  apply Qle_bool_iff in Hle. congruence.
Qed.

(** Case analysis on the tests of a statement, each comparison of
    rationals turned into the inequality it decides. *)
Ltac case_thread_step H :=
  repeat match type of H with
         | context [Qle_bool ?a ?b] =>
             let E := fresh "E" in
             destruct (Qle_bool a b) eqn:E;
             [apply Qle_bool_iff in E | apply Qle_bool_false in E]
         | context [if ?b then _ else _] => destruct b
         end;
  simplify_eq.

Section Properties.

Context {env : Env}.

(** ** The command sender *)

Lemma send_each_complete scs : forall calls,
  all_complete scs calls = true ->
  send_each scs calls = ((true, "OK"), calls ++ sent scs).
Proof.
  induction scs as [|sc rest IH]; intros calls Hall; simpl in *.
  - by rewrite app_nil_r.
  - destruct (ir_ctl calls (scancode_cmd sc)) eqn:Hr; try discriminate.
    rewrite (IH _ Hall). by rewrite <- app_assoc.
Qed.

Lemma send_each_first_failure pre : forall sc post calls,
  all_complete pre calls = true ->
  ir_ctl (calls ++ sent pre) (scancode_cmd sc) <> Completed ->
  send_each (pre ++ sc :: post) calls
  = ((false, failure_message (scancode_cmd sc)
               (ir_ctl (calls ++ sent pre) (scancode_cmd sc))),
     calls ++ sent pre
       ++ [Call (scancode_cmd sc) (ir_ctl (calls ++ sent pre) (scancode_cmd sc))]).
Proof.
  induction pre as [|x pre IH]; intros sc post calls Hall Hr; simpl in *.
  - rewrite app_nil_r in *.
    destruct (ir_ctl calls (scancode_cmd sc)) eqn:E; [done | done ..].
  - destruct (ir_ctl calls (scancode_cmd x)) eqn:E; try discriminate.
    change (Call (scancode_cmd x) Completed :: sent pre)
      with (sent [x] ++ sent pre) in *.
    rewrite app_assoc in Hr. rewrite (IH sc post _ Hall Hr).
    by rewrite <- !app_assoc.
Qed.

Lemma all_complete_cases scs : forall calls,
  all_complete scs calls = true
  \/ exists pre sc post,
       scs = pre ++ sc :: post /\ all_complete pre calls = true
       /\ ir_ctl (calls ++ sent pre) (scancode_cmd sc) <> Completed.
Proof.
  induction scs as [|x rest IH]; intros calls; simpl.
  - by left.
  - destruct (ir_ctl calls (scancode_cmd x)) eqn:E.
    + destruct (IH (calls ++ sent [x])) as [Hall | (pre & sc & post & -> & Hpre & Hr)].
      * by left.
      * right. exists (x :: pre), sc, post. simpl. rewrite E.
        repeat split; [done|].
        change (Call (scancode_cmd x) Completed :: sent pre)
          with (sent [x] ++ sent pre).
        by rewrite app_assoc.
    + right. exists [], x, rest. simpl. rewrite app_nil_r, E. done.
    + right. exists [], x, rest. simpl. rewrite app_nil_r, E. done.
    + right. exists [], x, rest. simpl. rewrite app_nil_r, E. done.
Qed.

Lemma send_nonempty key_name scs calls :
  KEYMAP !! key_name = Some (JList scs) -> scs <> [] ->
  send_scancodes_for_key key_name calls = send_each scs calls.
Proof.
  intros Hk Hne. unfold send_scancodes_for_key. rewrite Hk.
  by destruct scs.
Qed.

Lemma argv_sent scs : argv <$> sent scs = scancode_cmd <$> scs.
Proof. unfold sent. rewrite <- list_fmap_compose. reflexivity. Qed.

(** ** Rational arithmetic of the configuration *)

Lemma interval_pos : (0 < interval)%Q.
Proof.
  unfold interval, REPEAT_INTERVAL_MS.
  assert (H : (0 < inject_Z (Z.max 1 repeat_interval))%Q).
  { change 0%Q with (inject_Z 0). rewrite <- Zlt_Qlt. lia. }
  apply Qlt_shift_div_l; lra.
Qed.

Lemma max_iterations_enough h :
  (h <= inject_Z (Z.of_nat (max_iterations h)) * interval)%Q.
Proof.
  unfold max_iterations.
  pose proof interval_pos as Hi.
  pose proof (Qle_ceiling (h / interval)) as Hc.
  assert (Hz : (inject_Z (Qceiling (h / interval))
                <= inject_Z (Z.of_nat (Z.to_nat (Qceiling (h / interval)))))%Q).
  { rewrite <- Zle_Qle. lia. }
  assert (Hm : (h == (h / interval) * interval)%Q).
  { field. lra. }
  rewrite Hm at 1.
  apply Qmult_le_compat_r; lra.
Qed.

(** ** The maximal hold *)

Lemma max_hold_cases :
  MAX_HOLD_S = PosInf
  \/ exists h, MAX_HOLD_S = Finite h /\ ((1 # 10) <= h)%Q.
Proof.
  unfold MAX_HOLD_S, py_max. destruct max_hold as [q| | |]; simpl; eauto.
  - destruct (Qle_bool q (1 # 10)) eqn:E; simpl.
    + right. eexists. split; [done|]. lra.
    + right. eexists. split; [done|]. apply Qle_bool_false in E. lra.
  - right. eexists. split; [done|]. lra.
  - right. eexists. split; [done|]. lra.
Qed.

Lemma hold_reached_finite h x :
  MAX_HOLD_S = Finite h -> hold_reached x = Qle_bool h x.
Proof. unfold hold_reached. by intros ->. Qed.

Lemma hold_reached_inf x : MAX_HOLD_S = PosInf -> hold_reached x = false.
Proof. unfold hold_reached. by intros ->. Qed.

(** ** One statement of a worker *)

(** An effect leaves the clock, the flags and the threads alone; only the
    pop touches the registry. *)
Lemma apply_effect_frame w e s :
  now (fst (apply_effect w e s)) = now s
  /\ events (fst (apply_effect w e s)) = events s
  /\ threads (fst (apply_effect w e s)) = threads s
  /\ active_presses (fst (apply_effect w e s))
     = match e with
       | EPop => delete (pair_of w) (active_presses s)
       | _ => active_presses s
       end.
Proof.
  destruct e as [repeated| |]; simpl; unfold print.
  - destruct (send_scancodes_for_key _ _) as [[ok msg] calls]. simpl.
    by destruct (stdout_encodes _).
  - by destruct (stdout_encodes _).
  - by destruct (stdout_encodes _).
Qed.

Lemma run_effects_frame w effs : forall s,
  now (fst (run_effects w effs s)) = now s
  /\ events (fst (run_effects w effs s)) = events s
  /\ threads (fst (run_effects w effs s)) = threads s.
Proof.
  induction effs as [|e effs IH]; intros s; simpl; [done|].
  destruct (apply_effect_frame w e s) as (Hn & He & Ht & _).
  destruct (apply_effect w e s) as [s1 [l|]]; simpl in *; [done|].
  destruct (IH s1) as (Hn1 & He1 & Ht1). by rewrite Hn1, He1, Ht1.
Qed.

Lemma work_inv tid s s' :
  work tid s = Some s' ->
  exists w p effs,
    threads s !! tid = Some w
    /\ repeat_thread_func (now s) (default false (events s !! w_stop w)) (w_pc w)
       = Some (p, effs)
    /\ s' = set_pc tid w (landing p (snd (run_effects w effs s)))
              (fst (run_effects w effs s)).
Proof.
  unfold work. intros H.
  destruct (threads s !! tid) as [w|]; [|done].
  destruct (repeat_thread_func _ _ _) as [[p effs]|] eqn:Hstep; [|done].
  destruct (run_effects w effs s) as [s1 r] eqn:Hrun.
  injection H as <-. exists w, p, effs. by rewrite Hrun.
Qed.

Lemma work_enabled tid s w p effs :
  threads s !! tid = Some w ->
  repeat_thread_func (now s) (default false (events s !! w_stop w)) (w_pc w)
  = Some (p, effs) ->
  exists s', work tid s = Some s'.
Proof.
  intros Hw Hstep. unfold work. rewrite Hw. simpl. rewrite Hstep.
  destruct (run_effects w effs s). eauto.
Qed.

(** The effects of a statement: none, or one. *)
Lemma thread_step_effects t f p p' effs :
  repeat_thread_func t f p = Some (p', effs) ->
  match p with
  | L92 _ => effs = [ESend false]
  | L96 _ => effs = [] \/ (effs = [EMaxHold] /\ p' = L104)
  | L102 _ => effs = [ESend true]
  | L104 => effs = [EPop]
  | _ => effs = []
  end.
Proof.
  destruct p; simpl; intros H;
    repeat match type of H with
           | context [if ?b then _ else _] => destruct b
           end; simplify_eq; auto.
Qed.

(** What a statement leaves alone: the clock, the flags, the other
    workers, and the registry unless the statement is the pop of l.105.
    The thread is where the statement leads, or ended at a [print]. *)
Lemma work_frame tid s s' :
  work tid s = Some s' ->
  exists w p effs q,
    threads s !! tid = Some w
    /\ repeat_thread_func (now s) (default false (events s !! w_stop w)) (w_pc w)
       = Some (p, effs)
    /\ now s' = now s /\ events s' = events s
    /\ threads s'
       = <[tid := Worker (w_client w) (w_key w) (w_stop w) q]> (threads s)
    /\ active_presses s'
       = match w_pc w with
         | L104 => delete (pair_of w) (active_presses s)
         | _ => active_presses s
         end
    /\ (q = p \/ exists l, q = Raised l /\ (l = At106 <-> w_pc w = L104)).
Proof.
  intros (w & p & effs & Hw & Hstep & ->)%work_inv.
  exists w, p, effs, (landing p (snd (run_effects w effs s))).
  split; [done|]. split; [done|].
  pose proof (thread_step_effects _ _ _ _ _ Hstep) as Heffs.
  assert (Hone : forall e, effs = [e] ->
             run_effects w effs s
             = (fst (apply_effect w e s), snd (apply_effect w e s))).
  { intros e ->. simpl. by destruct (apply_effect w e s) as [s1 [l|]]. }
  assert (Hsite : forall e l, snd (apply_effect w e s) = Some l ->
             (l = At106 <-> e = EPop)).
  { intros e l. destruct e as [[]| |]; simpl; unfold print;
      try destruct (send_scancodes_for_key _ _) as [[ok msg] calls]; simpl;
      destruct (stdout_encodes _); simpl; intros; simplify_eq; by split. }
  assert (Hcase : effs = [] \/ exists e, effs = [e]
                    /\ (e = EPop <-> w_pc w = L104)).
  { destruct (w_pc w); try (by left); destruct Heffs as [?|[? ?]] || idtac;
      try (by left); right; eexists; (split; [done|]); by split. }
  destruct Hcase as [-> | (e & He & Hpop)].
  - simpl. repeat split; try done; [|by left].
    by destruct (w_pc w).
  - rewrite (Hone e He).
    destruct (apply_effect_frame w e s) as (Hn & Hev & Ht & Ha).
    simpl. rewrite Hn, Hev, Ht, Ha. repeat split; try done.
    + destruct e; destruct (w_pc w); try done;
        try (by destruct Hpop as [Hp _]; specialize (Hp eq_refl));
        try (by destruct Hpop as [_ Hp]; specialize (Hp eq_refl)).
    + destruct (snd (apply_effect w e s)) as [l|] eqn:Hl; simpl; [|by left].
      right. exists l. split; [done|]. rewrite (Hsite _ _ Hl). done.
Qed.

(** ** What a request leaves alone *)

Lemma do_POST_state r s :
  snd (do_POST r s) = s
  \/ exists client_id key,
       client_id <> "" /\ key <> ""
       /\ (snd (do_POST r s) = snd (do_click key s)
           \/ snd (do_POST r s) = snd (do_down client_id key s)
           \/ snd (do_POST r s) = snd (do_up client_id key s)).
Proof.
  unfold do_POST.
  destruct (negb _); [by left|].
  destruct (body r) as [e|action key client_id]; [by left|].
  destruct (truthy action && truthy key && truthy client_id) eqn:Ht;
    simpl; [|by left].
  apply andb_prop in Ht as [[_ Hk]%andb_prop Hc].
  destruct key as [key|]; [|done]. destruct client_id as [client_id|]; [|done].
  simpl in *.
  assert (key <> "") by (intros ->; done).
  assert (client_id <> "") by (intros ->; done).
  repeat case_match; eauto 10.
Qed.

Lemma do_POST_action action client_id key s :
  client_id <> "" -> key <> "" ->
  do_POST (action_request action client_id key) s
  = if String.eqb action "click" then do_click key s
    else if String.eqb action "down" then do_down client_id key s
    else if String.eqb action "up" then do_up client_id key s
    else if String.eqb action "" then
           (ReplyError 400 "missing action/key/client_id", s)
    else (ReplyError 400 "unknown action", s).
Proof.
  intros Hc Hk. unfold do_POST, action_request. simpl.
  apply String.eqb_neq in Hc, Hk. rewrite Hc, Hk. simpl.
  destruct (String.eqb action "") eqn:Ha; simpl.
  - apply String.eqb_eq in Ha as ->. done.
  - done.
Qed.

(** ** The shutdown of the main program *)

Lemma shutdown_events_length s :
  length (events (shutdown s)) = length (events s).
Proof.
  unfold shutdown. simpl. generalize (events s) as ev.
  induction (map_to_list (active_presses s)) as [|[k info] l IH];
    intros ev; simpl; [done|].
  by rewrite IH, length_insert.
Qed.

(** ** The registry and the workers agree in every reachable state *)

Lemma consistent_initial : consistent initial.
Proof. split; simpl; intros; simplify_map_eq; simplify_list_eq. Qed.

Lemma consistent_click key s : consistent s -> consistent (snd (do_click key s)).
Proof.
  intros [H1 H2 H3]. unfold do_click.
  destruct (send_scancodes_for_key _ _) as [[[] msg] calls]; by split.
Qed.

Lemma consistent_down client_id key s :
  consistent s -> consistent (snd (do_down client_id key s)).
Proof.
  intros [H1 H2 H3]. unfold do_down.
  destruct (active_presses s !! (client_id, key)) eqn:E; [by split|].
  split; simpl.
  - intros k info [[<- <-] | [Hne Hl]]%lookup_insert_Some.
    + eexists. split; [by apply list_lookup_middle|]. done.
    + destruct (H1 _ _ Hl) as (w & Hw & ?).
      exists w. split; [by apply lookup_app_l_Some|]. done.
  - intros tid w [Hw | [Hlen Hw]]%lookup_app_Some Hlive.
    + destruct (H2 _ _ Hw Hlive) as (info & Hi & ?).
      exists info. split; [|done].
      rewrite lookup_insert_ne; [done|]. intros Heq. congruence.
    + destruct (tid - length (threads s))%nat eqn:Hd; [|by destruct n].
      simplify_eq/=. eexists. rewrite lookup_insert_eq. split; [done|].
      simpl. lia.
  - intros tid w [Hw | [Hlen Hw]]%lookup_app_Some; rewrite length_app; simpl.
    + specialize (H3 _ _ Hw). lia.
    + destruct (tid - length (threads s))%nat; [|by destruct n].
      simplify_eq/=. lia.
Qed.

Lemma consistent_up client_id key s :
  consistent s -> consistent (snd (do_up client_id key s)).
Proof.
  intros [H1 H2 H3]. unfold do_up.
  destruct (active_presses s !! (client_id, key)); [|by split].
  split; simpl; [done..|].
  intros. rewrite length_insert. eauto.
Qed.
Lemma running_live w : running (w_pc w) = true -> live w = true.
Proof. unfold live. by destruct (w_pc w). Qed.

(** A statement is executed by a running thread; the thread has popped
    after it exactly when the statement was the pop. *)
Lemma thread_step_live t f p p' effs q :
  repeat_thread_func t f p = Some (p', effs) ->
  (q = p' \/ exists l, q = Raised l /\ (l = At106 <-> p = L104)) ->
  running p = true
  /\ forall c k n, live (Worker c k n q) = false <-> p = L104.
Proof.
  intros H Hq. split; [by destruct p|].
  intros c k n. unfold live. simpl.
  destruct Hq as [-> | (l & -> & Hl)].
  - destruct p; simpl in H;
      repeat match type of H with
             | context [if ?b then _ else _] => destruct b
             end; simplify_eq; by split.
  - rewrite <- Hl. destruct l; by split.
Qed.

Lemma consistent_work tid s s' :
  consistent s -> work tid s = Some s' -> consistent s'.
Proof.
  intros [H1 H2 H3]
    (w & p & effs & q & Hw & Hstep & _ & He & Ht & Ha & Hq)%work_frame.
  destruct (thread_step_live _ _ _ _ _ _ Hstep Hq) as [Hrun Hpop].
  specialize (Hpop (w_client w) (w_key w) (w_stop w)).
  pose proof (running_live _ Hrun) as Hwl.
  destruct (H2 _ _ Hw Hwl) as (own & Hown & Htid).
  pose proof (lookup_lt_Some _ _ _ Hw) as Hlt.
  split; rewrite ?Ht, ?He, ?Ha.
  - intros k info Hl.
    assert (Hold : active_presses s !! k = Some info
                   /\ (w_pc w = L104 -> k <> pair_of w)).
    { destruct (w_pc w); try done.
      apply lookup_delete_Some in Hl as [? ?]. done. }
    destruct Hold as [Hold Hne].
    destruct (H1 _ _ Hold) as (w0 & Hw0 & Hp0 & Hs0 & Hl0).
    destruct (decide (thread info = tid)) as [Heq|Hneq].
    + rewrite Heq in *. simplify_eq.
      eexists. split; [by apply list_lookup_insert_eq|].
      repeat split; try done.
      apply not_false_is_true. intros Hdead.
      apply Hpop in Hdead. by apply (Hne Hdead).
    + exists w0. rewrite list_lookup_insert_ne; done.
  - intros tid' w' Hw' Hlive'.
    destruct (decide (tid = tid')) as [<-|Hneq].
    + rewrite list_lookup_insert_eq in Hw' by done. simplify_eq.
      exists own. split; [|done].
      assert (Hpc : w_pc w <> L104).
      { intros Hpc. apply Hpop in Hpc. congruence. }
      unfold pair_of in *. simpl. by destruct (w_pc w).
    + rewrite list_lookup_insert_ne in Hw' by done.
      destruct (H2 _ _ Hw' Hlive') as (info & Hi & Hti).
      exists info. split; [|done].
      destruct (w_pc w) eqn:Hpc; try done.
      rewrite lookup_delete_ne; [done|].
      intros Heq. rewrite Heq in Hown. congruence.
  - intros tid' w'.
    destruct (decide (tid = tid')) as [<-|Hneq].
    + rewrite list_lookup_insert_eq by done. intros; simplify_eq/=. eauto.
    + rewrite list_lookup_insert_ne by done. eauto.
Qed.

Lemma step_consistent l s s' :
  consistent s -> step l s = Some s' -> consistent s'.
Proof.
  intros Hc. destruct l as [d|r|tid|]; simpl.
  - destruct (Qle_bool 0 d); [|done]. intros; simplify_eq.
    destruct Hc. by split.
  - intros; simplify_eq.
    destruct (do_POST_state r s) as [-> | (c & k & _ & _ & [-> | [-> | ->]])];
      auto using consistent_click, consistent_down, consistent_up.
  - by apply consistent_work.
  - intros [= <-]. destruct Hc as [H1 H2 H3]. split; [done..|].
    intros tid w Hw. rewrite shutdown_events_length. by eapply H3.
Qed.

(** ** The clock and the local variables of the workers *)

Lemma timely_mono t t' p : (t <= t')%Q -> timely t p -> timely t' p.
Proof.
  destruct p; simpl; intros; try done; try lra.
  split; [lra | tauto].
Qed.

Lemma thread_step_timely t f p p' effs :
  timely t p -> repeat_thread_func t f p = Some (p', effs) -> timely t p'.
Proof.
  pose proof interval_pos as Hint.
  destruct p; simpl; intros Ht H; try done.
  - simplify_eq. simpl. lra.
  - destruct int_too_large; by simplify_eq.
  - destruct f; by simplify_eq.
  - destruct (hold_reached (t - start)) eqn:E; simplify_eq; [done|].
    simpl. split; [done|]. intros h Hh.
    rewrite (hold_reached_finite h _ Hh) in E.
    apply Qle_bool_false in E. lra.
  - destruct Ht as [Ht _].
    destruct f; [by simplify_eq|].
    destruct wait_raises; [by simplify_eq|].
    destruct (Qle_bool deadline t); by simplify_eq.
  - by simplify_eq.
  - by simplify_eq.
Qed.

(** An invariant of the positions that holds of every ended thread holds
    where a statement lands. *)
Lemma landed (P : pc -> Prop) p q (pc0 : pc) :
  (forall l, P (Raised l)) -> P p ->
  (q = p \/ exists l, q = Raised l /\ (l = At106 <-> pc0 = L104)) -> P q.
Proof. intros Hr Hp [-> | (l & -> & _)]; auto. Qed.

Lemma do_POST_threads r s :
  now (snd (do_POST r s)) = now s
  /\ (threads (snd (do_POST r s)) = threads s
      \/ exists w, w_pc w = L91
                   /\ threads (snd (do_POST r s)) = threads s ++ [w]).
Proof.
  destruct (do_POST_state r s) as [-> | (c & k & _ & _ & [-> | [-> | ->]])].
  - by split; [|left].
  - unfold do_click.
    destruct (send_scancodes_for_key _ _) as [[[] msg] calls];
      by split; [|left].
  - unfold do_down. destruct (active_presses s !! (c, k)); simpl.
    + by split; [|left].
    + split; [done|]. right. eexists. split; [|reflexivity]. reflexivity.
  - unfold do_up. destruct (active_presses s !! (c, k)); by split; [|left].
Qed.

Lemma step_on_time l s s' : on_time s -> step l s = Some s' -> on_time s'.
Proof.
  intros Hot. destruct l as [d|r|tid|]; simpl; [| | |by intros [= <-]].
  - destruct (Qle_bool 0 d) eqn:Hd; [|done]. intros; simplify_eq.
    apply Qle_bool_iff in Hd.
    intros tid w Hw. simpl in *. eapply timely_mono; [|by eapply Hot]. lra.
  - intros; simplify_eq.
    destruct (do_POST_threads r s) as [Hn [Ht | (w0 & Hpc & Ht)]];
      intros tid w; rewrite Hn, Ht.
    + apply Hot.
    + intros [Hw | [_ Hw]]%lookup_app_Some; [by eapply Hot|].
      destruct (tid - length (threads s))%nat; [|by destruct n].
      simplify_eq/=. by rewrite Hpc.
  - intros (w & p & effs & q & Hw & Hstep & Hn & _ & Ht & _ & Hq)%work_frame.
    intros tid' w'. rewrite Hn, Ht.
    pose proof (lookup_lt_Some _ _ _ Hw).
    destruct (decide (tid = tid')) as [<-|Hneq].
    + rewrite list_lookup_insert_eq by done. intros; simplify_eq/=.
      eapply (landed (timely (now s))); [done | | done].
      eapply thread_step_timely; [by eapply Hot | done].
    + rewrite list_lookup_insert_ne by done. apply Hot.
Qed.

Lemma on_time_initial : on_time initial.
Proof. intros tid w Hw. by simplify_list_eq. Qed.

Lemma exec_invariant ls : forall s s',
  consistent s -> on_time s -> exec ls s = Some s' ->
  consistent s' /\ on_time s'.
Proof.
  induction ls as [|l ls IH]; intros s s' Hc Ho; simpl.
  - intros; by simplify_eq.
  - destruct (step l s) as [s1|] eqn:Hs; [|done].
    apply IH; eauto using step_consistent, step_on_time.
Qed.

Lemma reachable_invariant s : reachable s -> consistent s /\ on_time s.
Proof.
  intros [ls Hls].
  eapply exec_invariant; eauto using consistent_initial, on_time_initial.
Qed.

Lemma exec_app ls1 ls2 s :
  exec (ls1 ++ ls2) s
  = match exec ls1 s with Some s1 => exec ls2 s1 | None => None end.
Proof.
  revert s. induction ls1 as [|l ls1 IH]; intros s; simpl; [done|].
  destruct (step l s); [apply IH | done].
Qed.

Lemma reachable_exec ls s s' :
  reachable s -> exec ls s = Some s' -> reachable s'.
Proof.
  intros [ls0 H0] H. exists (ls0 ++ ls). by rewrite exec_app, H0.
Qed.

(** ** Why a worker leaves its loop *)

Lemma loop_exit_cause t f p effs :
  in_loop p = true -> repeat_thread_func t f p = Some (L104, effs) ->
  f = true \/ exists start, p = L96 start /\ hold_reached (t - start) = true.
Proof.
  destruct p; simpl; intros Hin H; try done;
    destruct f; auto; try done.
  - destruct (hold_reached (t - start)) eqn:E; simplify_eq. eauto.
  - destruct wait_raises; [done|]. by destruct (Qle_bool deadline t).
Qed.

Lemma loop_leads t f p p' effs :
  in_loop p = true -> repeat_thread_func t f p = Some (p', effs) ->
  in_loop p' = true \/ p' = L104 \/ p' = Raised At100.
Proof.
  destruct p; simpl; intros Hin H; try done; case_thread_step H; auto.
Qed.

(** ** A worker runs out of statements when the hold time is finite *)

Section Budget.

Variable h : Q.
Hypothesis finite_hold : MAX_HOLD_S = Finite h.

Lemma inject_succ m :
  (inject_Z (Z.of_nat (S m)) == inject_Z (Z.of_nat m) + 1)%Q.
Proof. by rewrite Nat2Z.inj_succ, <- Z.add_1_r, inject_Z_plus. Qed.

Lemma credit_mono t t' p m : (t <= t')%Q -> credit h t p m -> credit h t' p m.
Proof. destruct p; simpl; intros; try done; try split; try lra; tauto. Qed.

Lemma thread_step_credit t f p p' effs m :
  credit h t p m -> repeat_thread_func t f p = Some (p', effs) ->
  exists m', credit h t p' m' /\ (S (steps_left p' m') <= steps_left p m)%nat.
Proof.
  destruct p; simpl; intros Hc H;
    rewrite ?(hold_reached_finite h _ finite_hold) in H;
    case_thread_step H;
    try (exists m; simpl; split; [|lia];
         first [done | lra | split; [lra | done] | destruct Hc; lra]).
  destruct m as [|m'].
  - exfalso. change (inject_Z (Z.of_nat 0)) with 0%Q in Hc. lra.
  - exists m'. rewrite inject_succ in Hc. split; [simpl; lra | simpl; lia].
Qed.

Lemma step_budget l s s' tid B :
  budget h s tid B -> step l s = Some s' ->
  match l with
  | Work t => if Nat.eqb t tid
              then exists B', B = S B' /\ budget h s' tid B'
              else budget h s' tid B
  | _ => budget h s' tid B
  end.
Proof.
  unfold budget. intros Hb.
  destruct l as [d|r|t|]; simpl; [| | |by intros [= <-]].
  - destruct (Qle_bool 0 d) eqn:Hd; [|done]. intros; simplify_eq/=.
    apply Qle_bool_iff in Hd.
    destruct (threads s !! tid) as [w|]; [|done].
    destruct Hb as (m & Hc & Hs). exists m. split; [|done].
    eapply credit_mono; [|done]. lra.
  - intros; simplify_eq.
    destruct (do_POST_threads r s) as [Hn [Ht | (w0 & Hpc & Ht)]];
      rewrite Hn, Ht; [done|].
    destruct (threads s !! tid) as [w|] eqn:Hw.
    + by rewrite (lookup_app_l_Some _ _ _ _ Hw).
    + apply lookup_ge_None in Hw.
      destruct (decide (tid = length (threads s))) as [->|Hne].
      * rewrite list_lookup_middle by done. rewrite Hpc.
        exists (max_iterations h).
        split; [apply max_iterations_enough | done].
      * rewrite lookup_ge_None_2; [done|]. rewrite length_app. simpl. lia.
  - intros (w & p & effs & q & Hw & Hstep & Hn & _ & Ht & _ & Hq)%work_frame.
    pose proof (lookup_lt_Some _ _ _ Hw).
    destruct (Nat.eqb_spec t tid) as [->|Hne].
    + rewrite Hw in Hb. destruct Hb as (m & Hc & Hs).
      destruct (thread_step_credit _ _ _ _ _ _ Hc Hstep) as (m' & Hc' & Hs').
      destruct B as [|B']; [lia|]. exists B'. split; [done|].
      rewrite Ht, Hn, list_lookup_insert_eq by done. simpl.
      destruct Hq as [-> | (l & -> & _)].
      * exists m'. split; [done | lia].
      * exists 0%nat. simpl. split; [done | lia].
    + rewrite Ht, Hn, list_lookup_insert_ne by done. done.
Qed.

Lemma exec_budget ls : forall s s' tid B,
  budget h s tid B -> exec ls s = Some s' -> (work_count tid ls <= B)%nat.
Proof.
  induction ls as [|l ls IH]; intros s s' tid B Hb; simpl; [lia|].
  destruct (step l s) as [s1|] eqn:Hs; [|done]. intros Hex.
  pose proof (step_budget _ _ _ _ _ Hb Hs) as Hb'.
  destruct l as [d|r|t|]; [by eapply IH..| |by eapply IH].
  destruct (Nat.eqb t tid).
  - destruct Hb' as (B' & -> & Hb').
    specialize (IH _ _ _ _ Hb' Hex). lia.
  - specialize (IH _ _ _ _ Hb' Hex). lia.
Qed.

Lemma reachable_budget s tid :
  reachable s -> budget h s tid (4 * max_iterations h + 5).
Proof.
  intros [ls Hls].
  assert (Hgen : forall ls s0 s1 B, budget h s0 tid B -> exec ls s0 = Some s1 ->
                        budget h s1 tid B).
  { clear -finite_hold. induction ls as [|l ls IH]; intros s0 s1 B Hb; simpl.
    - intros; by simplify_eq.
    - destruct (step l s0) as [s2|] eqn:Hs; [|done].
      pose proof (step_budget _ _ _ _ _ Hb Hs) as Hb'.
      destruct l as [d|r|t|]; [by apply IH..| |by apply IH].
      destruct (Nat.eqb t tid); [|by apply IH].
      destruct Hb' as (B' & -> & Hb'). intros Hex.
      specialize (IH _ _ _ Hb' Hex).
      unfold budget in *. destruct (threads s1 !! tid).
      + destruct IH as (m & ? & ?). exists m. split; [done | lia].
      + lia. }
  eapply Hgen; [|done]. unfold budget. simpl. lia.
Qed.

End Budget.

(** ** A running worker is never stuck *)

Lemma worker_progress s tid w :
  threads s !! tid = Some w -> running (w_pc w) = true ->
  exists d s1 s2,
    (0 <= d)%Q /\ step (Tick d) s = Some s1 /\ step (Work tid) s1 = Some s2
    /\ ((d == 0)%Q
        \/ exists start deadline,
             w_pc w = L100 start deadline /\ (now s + d == deadline)%Q).
Proof.
  intros Hw Hlive.
  assert (Hgo : forall d p effs, (0 <= d)%Q ->
            repeat_thread_func (now s + d) (default false (events s !! w_stop w)) (w_pc w)
            = Some (p, effs) ->
            exists s1 s2, step (Tick d) s = Some s1
                          /\ step (Work tid) s1 = Some s2).
  { intros d p effs Hd Hstep. simpl. apply Qle_bool_iff in Hd. rewrite Hd.
    set (s1 := {| now := (now s + d)%Q; active_presses := active_presses s;
                  events := events s; threads := threads s;
                  hw_calls := hw_calls s; console := console s |}).
    assert (H2 : exists s2, work tid s1 = Some s2).
    { unfold work. simpl. rewrite Hw. simpl. rewrite Hstep.
      destruct (run_effects _ _ _). eauto. }
    destruct H2 as [s2 H2]. by exists s1, s2. }
  assert (Hnow : forall p effs,
            repeat_thread_func (now s + 0) (default false (events s !! w_stop w)) (w_pc w)
            = Some (p, effs) ->
            exists d s1 s2,
              (0 <= d)%Q /\ step (Tick d) s = Some s1
              /\ step (Work tid) s1 = Some s2
              /\ ((d == 0)%Q
                  \/ exists start deadline,
                       w_pc w = L100 start deadline
                       /\ (now s + d == deadline)%Q)).
  { intros p effs Hstep.
    destruct (Hgo 0%Q p effs) as (s1 & s2 & H1 & H2); [lra | done |].
    exists 0%Q, s1, s2. repeat split; try done. by left. }
  destruct (w_pc w) eqn:Hpc; try done;
    try (by eapply Hnow; simpl).
  - destruct (hold_reached (now s + 0 - start)) eqn:E;
      eapply Hnow; simpl; by rewrite E.
  - destruct (default false (events s !! w_stop w)) eqn:Hf.
    { eapply Hnow. simpl. done. }
    destruct wait_raises eqn:Hwr.
    { eapply Hnow. simpl. by rewrite Hwr. }
    destruct (Qlt_le_dec (now s) deadline) as [Hlt | Hle].
    + assert (Hd : (0 <= deadline - now s)%Q) by lra.
      assert (Hdl : Qle_bool deadline (now s + (deadline - now s)) = true).
      { apply Qle_bool_iff. lra. }
      destruct (Hgo (deadline - now s)%Q (L102 start) []) as (s1 & s2 & H1 & H2);
        [done | by simpl; rewrite Hwr, Hdl |].
      exists (deadline - now s)%Q, s1, s2. repeat split; try done.
      right. exists start, deadline. split; [done | ring].
    + eapply Hnow. simpl.
      assert (Hdl : Qle_bool deadline (now s + 0) = true).
      { apply Qle_bool_iff. lra. }
      by rewrite Hwr, Hdl.
Qed.

End Properties.

Section Sender.

Context {env : Env}.

(** What [send_each] appends to the log. *)
Lemma send_each_log scs : forall calls,
  exists new,
    snd (send_each scs calls) = calls ++ new
    /\ (length new <= length scs)%nat
    /\ argv <$> new = scancode_cmd <$> take (length new) scs
    /\ (forall i c, new !! i = Some c ->
                    outcome c = ir_ctl (calls ++ take i new) (argv c))
    /\ (fst (fst (send_each scs calls)) = true
        <-> length new = length scs
            /\ Forall (fun c => outcome c = Completed) new).
Proof.
  induction scs as [|sc rest IH]; intros calls; simpl.
  - exists []. rewrite app_nil_r. repeat split; auto.
    intros i c Hc. by simplify_list_eq.
  - set (cmd := scancode_cmd sc).
    assert (Hfail : ir_ctl calls cmd <> Completed ->
              exists new,
                calls ++ [Call cmd (ir_ctl calls cmd)] = calls ++ new
                /\ (length new <= S (length rest))%nat
                /\ argv <$> new = scancode_cmd <$> take (length new) (sc :: rest)
                /\ (forall i c, new !! i = Some c ->
                       outcome c = ir_ctl (calls ++ take i new) (argv c))
                /\ (false = true
                    <-> length new = S (length rest)
                        /\ Forall (fun c => outcome c = Completed) new)).
    { intros Hr. exists [Call cmd (ir_ctl calls cmd)].
      split; [done|]. split; [simpl; lia|]. split; [done|]. split.
      - intros [|i] c Hc; simplify_eq/=. by rewrite app_nil_r.
      - split; [done|]. intros [_ Hall].
        apply Forall_cons in Hall as [Hc _]. done. }
    destruct (ir_ctl calls cmd) eqn:Hr; try (apply Hfail; done).
    destruct (IH (calls ++ [Call cmd Completed]))
      as (new & Hlog & Hlen & Hargv & Hout & Hok).
    exists (Call cmd Completed :: new).
    split; [by rewrite Hlog, <- app_assoc|].
    split; [simpl; lia|].
    split; [cbn [length take]; rewrite !fmap_cons; by rewrite Hargv|]. split.
    + intros [|i] c Hc; simplify_eq/=.
      * by rewrite app_nil_r.
      * rewrite (Hout _ _ Hc). by rewrite <- app_assoc.
    + rewrite Hok. simpl. rewrite Forall_cons.
      split; [intros [? ?]; split; [lia | done] |].
      intros [? [_ ?]]. split; [lia | done].
Qed.

(** What [send_scancodes_for_key] appends to the log: nothing, or calls
    for a prefix of the definition of the key. *)
Lemma send_log key_name calls :
  exists new,
    snd (send_scancodes_for_key key_name calls) = calls ++ new
    /\ (new = []
        \/ exists scs,
             KEYMAP !! key_name = Some (JList scs)
             /\ (length new <= length scs)%nat
             /\ argv <$> new = scancode_cmd <$> take (length new) scs
             /\ forall i c, new !! i = Some c ->
                   outcome c = ir_ctl (calls ++ take i new) (argv c)).
Proof.
  unfold send_scancodes_for_key.
  destruct (KEYMAP !! key_name) as [v|] eqn:Hk;
    [|exists []; by rewrite app_nil_r; auto].
  destruct v as [| | | | |[|sc rest]|];
    try (exists []; by rewrite app_nil_r; auto).
  destruct (send_each_log (sc :: rest) calls)
    as (new & Hlog & Hlen & Hargv & Hout & _).
  exists new. split; [done|]. right. by exists (sc :: rest).
Qed.

Lemma send_from_table key_name calls :
  from_table calls ->
  from_table (snd (send_scancodes_for_key key_name calls)).
Proof.
  intros Hcalls.
  destruct (send_log key_name calls)
    as (new & -> & [-> | (scs & Hk & Hlen & Hargv & Hout)]).
  { by rewrite app_nil_r. }
  intros i c [Hc | [Hge Hc]]%lookup_app_Some.
  - destruct (Hcalls _ _ Hc) as (key & scs0 & sc & ? & ? & ? & Ho).
    exists key, scs0, sc. repeat split; try done.
    rewrite take_app_le; [done|].
    apply lookup_lt_Some in Hc. lia.
  - assert (Hsc : exists sc, scs !! (i - length calls)%nat = Some sc
                             /\ argv c = scancode_cmd sc).
    { pose proof (f_equal (fun l => l !! (i - length calls)%nat) Hargv) as He.
      simpl in He. rewrite !list_lookup_fmap, Hc in He. simpl in He.
      rewrite lookup_take_lt in He by (apply lookup_lt_Some in Hc; lia).
      destruct (scs !! (i - length calls)%nat) as [sc|]; [|done].
      exists sc. split; [done|]. by simplify_eq/=. }
    destruct Hsc as (sc & Hsc & Hcmd).
    exists key_name, scs, sc. repeat split; try done.
    + apply list_elem_of_lookup. eauto.
    + rewrite (Hout _ _ Hc). by rewrite take_app_ge.
Qed.

End Sender.

Section Logs.

Context {env : Env}.

(** What a statement of a worker does to the log of invocations and to
    the console. *)
Lemma work_logs tid s s' :
  work tid s = Some s' ->
  exists w,
    threads s !! tid = Some w
    /\ hw_calls s'
       = (if at_send (w_pc w)
          then snd (send_scancodes_for_key (w_key w) (hw_calls s))
          else hw_calls s)
    /\ console s `prefix_of` console s'.
Proof.
  intros (w & p & effs & Hw & Hstep & ->)%work_inv.
  exists w. split; [done|].
  pose proof (thread_step_effects _ _ _ _ _ Hstep) as Heffs.
  assert (Hsend : forall repeated,
             hw_calls (fst (run_effects w [ESend repeated] s))
             = snd (send_scancodes_for_key (w_key w) (hw_calls s))
             /\ console s `prefix_of`
                  console (fst (run_effects w [ESend repeated] s))).
  { intros repeated. simpl. unfold print.
    destruct (send_scancodes_for_key _ _) as [[ok msg] calls]. simpl.
    destruct (stdout_encodes _); simpl; split; try done.
    by apply prefix_app_r. }
  assert (Hother : forall e, e = EMaxHold \/ e = EPop ->
             hw_calls (fst (run_effects w [e] s)) = hw_calls s
             /\ console s `prefix_of` console (fst (run_effects w [e] s))).
  { intros e [-> | ->]; simpl; unfold print;
      destruct (stdout_encodes _); simpl; split; try done;
      by apply prefix_app_r. }
  destruct (w_pc w); simpl in *; subst; try done;
    try (by apply Hsend); try (by apply Hother; auto).
  destruct Heffs as [-> | [-> _]]; [done | by apply Hother; auto].
Qed.

(** What a request does to them. *)
Lemma do_POST_logs r s :
  console (snd (do_POST r s)) = console s
  /\ (hw_calls (snd (do_POST r s)) = hw_calls s
      \/ exists key,
           hw_calls (snd (do_POST r s))
           = snd (send_scancodes_for_key key (hw_calls s))).
Proof.
  destruct (do_POST_state r s) as [-> | (c & k & _ & _ & [-> | [-> | ->]])].
  - auto.
  - unfold do_click.
    destruct (send_scancodes_for_key k (hw_calls s)) as [[[] msg] calls] eqn:E;
      simpl; (split; [done|]); right; exists k; by rewrite E.
  - unfold do_down. destruct (active_presses s !! (c, k)); simpl; auto.
  - unfold do_up. destruct (active_presses s !! (c, k)); simpl; auto.
Qed.

Lemma step_logs l s s' :
  step l s = Some s' ->
  console s `prefix_of` console s'
  /\ (hw_calls s' = hw_calls s
      \/ exists key,
           hw_calls s' = snd (send_scancodes_for_key key (hw_calls s))).
Proof.
  destruct l as [d|r|tid|]; simpl.
  - destruct (Qle_bool 0 d); [|done]. intros [= <-]. simpl. auto.
  - intros [= <-]. destruct (do_POST_logs r s) as [-> H]. auto.
  - intros (w & _ & -> & Hc)%work_logs. split; [done|].
    destruct (at_send (w_pc w)); eauto.
  - intros [= <-]. simpl. auto.
Qed.

Lemma send_prefix key_name calls :
  calls `prefix_of` snd (send_scancodes_for_key key_name calls).
Proof.
  destruct (send_log key_name calls) as (new & -> & _).
  by apply prefix_app_r.
Qed.

End Logs.

Section Events.

Context {env : Env}.

(** Setting the stop events of a list of entries. *)
Lemma set_all_length (l : list (string * string * press)) : forall ev : list bool,
  length (foldl (fun ev '(k, info) => <[stop_event info := true]> ev) ev l)
  = length ev.
Proof.
  induction l as [|[k info] l IH]; intros ev; simpl; [done|].
  by rewrite IH, length_insert.
Qed.

Lemma set_all_keeps (l : list (string * string * press)) i : forall ev : list bool,
  ev !! i = Some true ->
  foldl (fun ev '(k, info) => <[stop_event info := true]> ev) ev l !! i
  = Some true.
Proof.
  induction l as [|[k info] l IH]; intros ev Hi; simpl; [done|].
  apply IH. destruct (decide (stop_event info = i)) as [<-|Hne].
  - apply list_lookup_insert_eq. by apply lookup_lt_Some in Hi.
  - by rewrite list_lookup_insert_ne.
Qed.

Lemma set_all_sets (l : list (string * string * press)) k info : forall ev : list bool,
  (k, info) ∈ l -> (stop_event info < length ev)%nat ->
  foldl (fun ev '(k, info) => <[stop_event info := true]> ev) ev l
    !! stop_event info
  = Some true.
Proof.
  induction l as [|[k0 info0] l IH]; intros ev Hin Hlt; simpl.
  - by apply elem_of_nil in Hin.
  - apply elem_of_cons in Hin as [Heq | Hin].
    + simplify_eq. apply set_all_keeps. by apply list_lookup_insert_eq.
    + apply IH; [done|]. by rewrite length_insert.
Qed.

Lemma set_all_other (l : list (string * string * press)) i : forall ev : list bool,
  (forall k info, (k, info) ∈ l -> stop_event info <> i) ->
  foldl (fun ev '(k, info) => <[stop_event info := true]> ev) ev l !! i
  = ev !! i.
Proof.
  induction l as [|[k0 info0] l IH]; intros ev Hne; simpl; [done|].
  rewrite IH.
  - apply list_lookup_insert_ne. apply (Hne k0). by left.
  - intros k info Hin. apply (Hne k). by right.
Qed.

(** A flag that is set stays set, and no event disappears. *)
Lemma step_flags l s s' i :
  step l s = Some s' ->
  (length (events s) <= length (events s'))%nat
  /\ (events s !! i = Some true -> events s' !! i = Some true).
Proof.
  destruct l as [d|r|tid|]; simpl.
  - destruct (Qle_bool 0 d); [|done]. by intros [= <-].
  - intros [= <-].
    destruct (do_POST_state r s) as [-> | (c & k & _ & _ & [-> | [-> | ->]])].
    + done.
    + unfold do_click.
      by destruct (send_scancodes_for_key _ _) as [[[] msg] calls].
    + unfold do_down. destruct (active_presses s !! (c, k)); simpl; [done|].
      rewrite length_app. split; [lia|]. apply lookup_app_l_Some.
    + unfold do_up. destruct (active_presses s !! (c, k)) as [info|];
        simpl; [|done].
      rewrite length_insert. split; [done|]. intros Hi.
      destruct (decide (stop_event info = i)) as [<-|Hne].
      * apply list_lookup_insert_eq. by apply lookup_lt_Some in Hi.
      * by rewrite list_lookup_insert_ne.
  - intros (w & p & effs & q & _ & _ & _ & -> & _)%work_frame. done.
  - intros [= <-]. simpl. rewrite set_all_length. split; [done|].
    apply set_all_keeps.
Qed.

(** A thread keeps its client, its key and its stop event. *)
Lemma step_thread l s s' tid w :
  step l s = Some s' -> threads s !! tid = Some w ->
  exists p,
    threads s' !! tid = Some (Worker (w_client w) (w_key w) (w_stop w) p).
Proof.
  intros Hstep Hw. destruct w as [c k st p0]. simpl.
  destruct l as [d|r|t|]; simpl in Hstep.
  - destruct (Qle_bool 0 d); [|done]. injection Hstep as <-. simpl. eauto.
  - injection Hstep as <-.
    destruct (do_POST_threads r s) as [_ [-> | (w0 & _ & ->)]]; [eauto|].
    exists p0. by apply lookup_app_l_Some.
  - apply work_frame in Hstep
      as (w0 & p & effs & q & Hw0 & _ & _ & _ & -> & _).
    destruct (decide (t = tid)) as [->|Hne].
    + rewrite Hw in Hw0. injection Hw0 as <-. simpl. exists q.
      apply list_lookup_insert_eq. by apply lookup_lt_Some in Hw.
    + exists p0. by rewrite list_lookup_insert_ne.
  - injection Hstep as <-. simpl. eauto.
Qed.

Lemma step_own_events l s s' :
  own_events s -> step l s = Some s' -> own_events s'.
Proof.
  intros [Hlen Hown]. destruct l as [d|r|tid|]; simpl.
  - destruct (Qle_bool 0 d); [|done]. by intros [= <-].
  - intros [= <-].
    destruct (do_POST_state r s) as [-> | (c & k & _ & _ & [-> | [-> | ->]])].
    + done.
    + unfold do_click.
      by destruct (send_scancodes_for_key _ _) as [[[] msg] calls].
    + unfold do_down. destruct (active_presses s !! (c, k)); simpl; [done|].
      split; simpl; [rewrite !length_app; simpl; lia|].
      intros tid w [Hw | [Hge Hw]]%lookup_app_Some; [eauto|].
      destruct (tid - length (threads s))%nat eqn:Hd; [|by destruct n].
      simplify_eq/=. lia.
    + unfold do_up. destruct (active_presses s !! (c, k)); simpl; [|done].
      split; simpl; [by rewrite length_insert | done].
  - intros (w & p & effs & q & Hw & _ & _ & He & Ht & _)%work_frame.
    split; [by rewrite He, Ht, length_insert|].
    intros tid' w'. rewrite Ht.
    destruct (decide (tid = tid')) as [<-|Hne].
    + rewrite list_lookup_insert_eq by (by apply lookup_lt_Some in Hw).
      intros [= <-]. simpl. eauto.
    + rewrite list_lookup_insert_ne by done. eauto.
  - intros [= <-]. split; simpl; [by rewrite set_all_length | done].
Qed.

Lemma reachable_own_events s : reachable s -> own_events s.
Proof.
  intros [ls Hls].
  assert (Hgen : forall ls s0 s1, own_events s0 -> exec ls s0 = Some s1 ->
                                  own_events s1).
  { clear. induction ls as [|l ls IH]; intros s0 s1 H0; simpl.
    - by intros [= <-].
    - destruct (step l s0) as [s2|] eqn:Hs; [|done].
      apply IH. by eapply step_own_events. }
  eapply Hgen; [|done]. split; [done|]. intros tid w Hw. by simplify_list_eq.
Qed.

Lemma step_named l s s' : named s -> step l s = Some s' -> named s'.
Proof.
  intros [Hreg Hthr]. destruct l as [d|r|tid|]; simpl.
  - destruct (Qle_bool 0 d); [|done]. by intros [= <-].
  - intros [= <-].
    destruct (do_POST_state r s) as [-> | (c & k & Hc & Hk & [-> | [-> | ->]])].
    + done.
    + unfold do_click.
      by destruct (send_scancodes_for_key _ _) as [[[] msg] calls].
    + unfold do_down. destruct (active_presses s !! (c, k)); simpl; [done|].
      split; simpl.
      * intros c' k' info [[[= <- <-] _] | [_ Hi]]%lookup_insert_Some; eauto.
      * intros tid w [Hw | [Hge Hw]]%lookup_app_Some; [eauto|].
        destruct (tid - length (threads s))%nat eqn:Hd; [|by destruct n].
        by simplify_eq/=.
    + unfold do_up. by destruct (active_presses s !! (c, k)).
  - intros (w & p & effs & q & Hw & _ & _ & _ & Ht & Ha & _)%work_frame.
    split.
    + intros c k info. rewrite Ha.
      destruct (w_pc w); eauto.
      intros [_ Hi]%lookup_delete_Some. eauto.
    + intros tid' w'. rewrite Ht.
      destruct (decide (tid = tid')) as [<-|Hne].
      * rewrite list_lookup_insert_eq by (by apply lookup_lt_Some in Hw).
        intros [= <-]. simpl. eauto.
      * rewrite list_lookup_insert_ne by done. eauto.
  - by intros [= <-].
Qed.

End Events.

(** ** Entries, exits and the stopping window *)

Section Sessions.

Context {env : Env}.

Lemma do_POST_keeps r s k info :
  active_presses s !! k = Some info ->
  active_presses (snd (do_POST r s)) !! k = Some info.
Proof.
  intros Hk.
  destruct (do_POST_state r s) as [-> | (c & key & _ & _ & [-> | [-> | ->]])].
  - done.
  - unfold do_click.
    by destruct (send_scancodes_for_key _ _) as [[[] msg] calls].
  - unfold do_down. destruct (active_presses s !! (c, key)) eqn:E; [done|].
    simpl. rewrite lookup_insert_ne; [done|]. congruence.
  - unfold do_up. by destruct (active_presses s !! (c, key)).
Qed.

(** Only the pop of l.105 removes an entry. *)
Lemma step_removal l s s' k info :
  step l s = Some s' ->
  active_presses s !! k = Some info -> active_presses s' !! k = None ->
  exists tid w,
    l = Work tid /\ threads s !! tid = Some w /\ w_pc w = L104
    /\ pair_of w = k.
Proof.
  destruct l as [d|r|tid|]; simpl; [| | |intros [= <-]; simpl; congruence].
  - destruct (Qle_bool 0 d); [|done]. intros [= <-]. simpl. congruence.
  - intros [= <-] Hk. rewrite (do_POST_keeps _ _ _ _ Hk). done.
  - intros (w & p & effs & q & Hw & _ & _ & _ & _ & Ha & _)%work_frame Hk.
    rewrite Ha. destruct (w_pc w) eqn:Hpc; try congruence.
    intros [Heq | Hnone]%lookup_delete_None; [|congruence].
    by exists tid, w.
Qed.

(** A thread that has returned, or that an exception has ended, stays as
    it is and executes nothing. *)
Lemma ended_stable l s s' tid w :
  threads s !! tid = Some w -> running (w_pc w) = false ->
  step l s = Some s' ->
  threads s' !! tid = Some w /\ l <> Work tid.
Proof.
  intros Hw Hpc. destruct l as [d|r|t|]; simpl; [| | |by intros [= <-]].
  - destruct (Qle_bool 0 d); [|done]. by intros [= <-].
  - intros [= <-]. split; [|done].
    destruct (do_POST_threads r s) as [_ [-> | (w0 & _ & ->)]]; [done|].
    by apply lookup_app_l_Some.
  - destruct (decide (t = tid)) as [->|Hne].
    + unfold work. rewrite Hw. by destruct (w_pc w).
    + intros (w1 & p & effs & q & _ & _ & _ & _ & Ht & _)%work_frame.
      rewrite Ht, list_lookup_insert_ne by done. split; [done | congruence].
Qed.

Lemma exec_ended ls : forall s s' tid w,
  threads s !! tid = Some w -> running (w_pc w) = false ->
  exec ls s = Some s' ->
  work_count tid ls = 0%nat /\ threads s' !! tid = Some w.
Proof.
  induction ls as [|l ls IH]; intros s s' tid w Hw Hpc; simpl.
  - by intros [= <-].
  - destruct (step l s) as [s1|] eqn:Hs; [|done]. intros Hex.
    destruct (ended_stable _ _ _ _ _ Hw Hpc Hs) as [Hw1 Hl].
    destruct (IH _ _ _ _ Hw1 Hpc Hex) as [Hc Hw'].
    split; [|done]. destruct l as [d|r|t|]; try done.
    destruct (Nat.eqb_spec t tid) as [->|]; [done | lia].
Qed.


(** The entry of a thread that an exception ended before its pop is
    never removed. *)
Lemma unpopped_entry_stays ls : forall s s' tid w info,
  consistent s ->
  threads s !! tid = Some w -> running (w_pc w) = false -> live w = true ->
  active_presses s !! pair_of w = Some info ->
  exec ls s = Some s' ->
  active_presses s' !! pair_of w = Some info.
Proof.
  induction ls as [|l ls IH]; intros s s' tid w info Hcons Hw Hend Hlive Hi;
    simpl.
  - by intros [= <-].
  - destruct (step l s) as [s1|] eqn:Hs; [|done]. intros Hex.
    destruct (ended_stable _ _ _ _ _ Hw Hend Hs) as [Hw1 Hl].
    apply (IH s1 s' tid w info); try done.
    + by eapply step_consistent.
    + destruct (active_presses s1 !! pair_of w) as [info1|] eqn:Hi1.
      * destruct l as [d|r|t|]; simpl in Hs.
        -- destruct (Qle_bool 0 d); [|done]. simplify_eq. simpl in Hi1.
           congruence.
        -- simplify_eq. rewrite (do_POST_keeps _ _ _ _ Hi) in Hi1.
           congruence.
        -- apply work_frame in Hs
             as (w1 & p & effs & q & _ & _ & _ & _ & _ & Ha & _).
           rewrite Ha in Hi1. destruct (w_pc w1).
           7: { apply lookup_delete_Some in Hi1 as [_ Hi1]. congruence. }
           all: congruence.
        -- simplify_eq. simpl in Hi1. congruence.
      * destruct (step_removal _ _ _ _ _ Hs Hi Hi1)
          as (tid' & w' & -> & Hw' & Hpc' & Hp).
        destruct (worker_entry _ Hcons _ _ Hw Hlive) as (i1 & Hi1' & Ht1).
        destruct (worker_entry _ Hcons _ _ Hw') as (i2 & Hi2' & Ht2).
        { unfold live. by rewrite Hpc'. }
        rewrite Hp in Hi2'. rewrite Hi1' in Hi2'. simplify_eq.
Qed.

(** Once its stop event is set, every statement of a worker brings it
    closer to its end, and none of them has to wait. *)
Lemma drain_one s tid w :
  threads s !! tid = Some w -> running (w_pc w) = true ->
  events s !! w_stop w = Some true ->
  exists s' q,
    step (Work tid) s = Some s'
    /\ threads s' !! tid = Some (Worker (w_client w) (w_key w) (w_stop w) q)
    /\ events s' = events s
    /\ (rank q < rank (w_pc w))%nat.
Proof.
  intros Hw Hrun Hset.
  assert (Hts : exists p effs,
             repeat_thread_func (now s) true (w_pc w) = Some (p, effs)
             /\ (rank p < rank (w_pc w))%nat).
  { destruct (w_pc w); simpl; try done;
      try (eexists; eexists; split; [done|]; simpl; lia).
    - destruct int_too_large; eexists; eexists; (split; [done|]); simpl; lia.
    - destruct (hold_reached _);
        eexists; eexists; (split; [done|]); simpl; lia. }
  destruct Hts as (p & effs & Hstep & Hrank).
  assert (Hwork : exists s', work tid s = Some s').
  { unfold work. rewrite Hw, Hset. simpl. rewrite Hstep.
    destruct (run_effects _ _ _). eauto. }
  destruct Hwork as [s' Hwork]. exists s'.
  pose proof Hwork as Hfr.
  apply work_frame in Hfr
    as (w1 & p1 & effs1 & q & Hw1 & Hstep1 & _ & He & Ht & _ & Hq).
  rewrite Hw in Hw1. simplify_eq. rewrite Hset in Hstep1. simpl in Hstep1.
  rewrite Hstep in Hstep1. simplify_eq.
  pose proof (lookup_lt_Some _ _ _ Hw).
  exists q. repeat split; try done.
  - rewrite Ht. by apply list_lookup_insert_eq.
  - destruct Hq as [-> | (l & -> & _)]; [done|]. simpl. lia.
Qed.

(** In every continuation of a state where the stop event of a worker is
    set, the statements the worker has executed and those it has left
    are no more than it had left. *)
Lemma drain_all ls : forall s s' tid w,
  threads s !! tid = Some w -> events s !! w_stop w = Some true ->
  exec ls s = Some s' ->
  exists q,
    threads s' !! tid = Some (Worker (w_client w) (w_key w) (w_stop w) q)
    /\ events s' !! w_stop w = Some true
    /\ (work_count tid ls + rank q <= rank (w_pc w))%nat.
Proof.
  induction ls as [|l ls IH]; intros s s' tid w Hw Hset; simpl.
  - intros [= <-]. exists (w_pc w). destruct w. simpl in *.
    repeat split; try done.
  - destruct (step l s) as [s1|] eqn:Hs; [|done]. intros Hex.
    pose proof (step_flags _ _ _ (w_stop w) Hs) as [_ Hfl].
    specialize (Hfl Hset).
    assert (Hone : exists q1,
               threads s1 !! tid
               = Some (Worker (w_client w) (w_key w) (w_stop w) q1)
               /\ ((match l with
                    | Work t => if Nat.eqb t tid then 1 else 0
                    | _ => 0
                    end) + rank q1 <= rank (w_pc w))%nat).
    { destruct l as [d|r|t|].
      - simpl in Hs. destruct (Qle_bool 0 d); [|done]. simplify_eq. simpl.
        exists (w_pc w). destruct w. simpl in *. split; [done | lia].
      - simpl in Hs. simplify_eq. exists (w_pc w).
        destruct (do_POST_threads r s) as [_ [-> | (w0 & _ & ->)]];
          destruct w; simpl in *; (split; [|lia]);
          [done | by apply lookup_app_l_Some].
      - destruct (Nat.eqb_spec t tid) as [->|Hne].
        + assert (Hrun : running (w_pc w) = true).
          { destruct (running (w_pc w)) eqn:E; [done|].
            destruct (ended_stable _ _ _ _ _ Hw E Hs) as [_ Hl]. done. }
          destruct (drain_one _ _ _ Hw Hrun Hset)
            as (s1' & q & Hs' & Hw1 & _ & Hr).
          rewrite Hs in Hs'. simplify_eq. exists q. split; [done | lia].
        + simpl in Hs. apply work_frame in Hs
            as (w1 & p & effs & q & _ & _ & _ & _ & Ht & _).
          exists (w_pc w). rewrite Ht, list_lookup_insert_ne by done.
          destruct w. simpl in *. split; [done | lia].
      - simpl in Hs. simplify_eq. exists (w_pc w). destruct w. simpl in *.
        split; [done | lia]. }
    destruct Hone as (q1 & Hw1 & Hr1).
    destruct (IH s1 s' tid _ Hw1 Hfl Hex) as (q & Hw' & Hset' & Hr).
    exists q. simpl in *. repeat split; try done.
    destruct l as [d|r|t|]; simpl in *; try lia.
Qed.

End Sessions.

(** ** The schedule does not depend on what the sends return *)

Section TwoWorlds.

Context (e1 e2 : Env).
Hypothesis same_interval : @repeat_interval e1 = @repeat_interval e2.
Hypothesis same_max_hold : @max_hold e1 = @max_hold e2.
Hypothesis same_timeout : @TIMEOUT_MAX e1 = @TIMEOUT_MAX e2.




End TwoWorlds.

Section TwoRuns.

Context (e1 e2 : Env).
Hypothesis same_interval : @repeat_interval e1 = @repeat_interval e2.
Hypothesis same_max_hold : @max_hold e1 = @max_hold e2.
Hypothesis same_timeout : @TIMEOUT_MAX e1 = @TIMEOUT_MAX e2.


End TwoRuns.

(** ** The lifetime of a session when the hold time is finite *)

Section Lifetime.

Context {env : Env}.
Variable h : Q.
Hypothesis finite_hold : MAX_HOLD_S = Finite h.

Lemma max_hold_pos : (0 < h)%Q.
Proof.
  destruct max_hold_cases as [Hinf | (h' & Hh & Hle)]; [congruence|].
  rewrite finite_hold in Hh. injection Hh as <-. lra.
Qed.

Lemma slack_proper t st b b' p :
  (b == b')%Q -> slack h t st b p -> slack h t st b' p.
Proof.
  intros Hb. destruct p; simpl; try done; intros; repeat split; lra.
Qed.

Lemma thread_step_slack t st b f p p' effs :
  slack h t st b p -> repeat_thread_func t f p = Some (p', effs) ->
  slack h t st b p'.
Proof.
  pose proof max_hold_pos as Hmax. pose proof interval_pos as Hint.
  destruct p; simpl; intros Hs H;
    rewrite ?(hold_reached_finite h _ finite_hold) in H;
    case_thread_step H; simpl;
    try done; repeat split; lra.
Qed.

(** Time that passes: all of it is busy time, but for the part spent in
    the wait before its deadline. *)
Lemma slack_tick t st b p d :
  (0 <= d)%Q -> slack h t st b p ->
  slack h (t + d) st
    (b + (d - match p with
              | L100 _ deadline =>
                  if Qle_bool (t + d) deadline then d
                  else if Qle_bool deadline t then 0
                  else deadline - t
              | _ => 0
              end))%Q p.
Proof.
  intros Hd. destruct p; simpl; try done; intros; try (repeat split; lra).
  destruct (Qle_bool (t + d) deadline) eqn:E1;
    [apply Qle_bool_iff in E1 | apply Qle_bool_false in E1].
  { repeat split; lra. }
  destruct (Qle_bool deadline t) eqn:E2;
    [apply Qle_bool_iff in E2 | apply Qle_bool_false in E2];
    repeat split; lra.
Qed.

Lemma waited_le tid s d : (0 <= d)%Q -> (waited tid s d <= d)%Q.
Proof.
  intros Hd. unfold waited.
  destruct (w_pc <$> threads s !! tid) as [[]|]; try lra.
  destruct (Qle_bool (now s + d) deadline) eqn:E1;
    [lra | apply Qle_bool_false in E1].
  destruct (Qle_bool deadline (now s)) eqn:E2;
    [lra | apply Qle_bool_false in E2]. lra.
Qed.

Lemma busy_step_nonneg tid l s s' :
  step l s = Some s' -> (0 <= busy_step tid l s)%Q.
Proof.
  unfold busy_step. destruct l as [d|r|t|]; simpl; try lra.
  destruct (Qle_bool 0 d) eqn:Hd; [|done]. intros _.
  apply Qle_bool_iff in Hd. pose proof (waited_le tid s d Hd).
  destruct (threads s !! tid); lra.
Qed.

Lemma step_in_slack l s s' tid b :
  consistent s -> (0 <= b)%Q -> in_slack h s tid b -> step l s = Some s' ->
  in_slack h s' tid (b + busy_step tid l s)%Q.
Proof.
  intros Hcons Hb Hin. unfold busy_step.
  destruct l as [d|r|t|]; simpl.
  - destruct (Qle_bool 0 d) eqn:Hd; [|done]. intros [= <-].
    apply Qle_bool_iff in Hd.
    intros w info Hw Hlive Hi. simpl in *. rewrite Hw.
    specialize (Hin _ _ Hw Hlive Hi).
    pose proof (slack_tick _ _ _ _ d Hd Hin) as Ht.
    unfold waited. rewrite Hw. simpl. by destruct (w_pc w).
  - intros [= <-]. intros w info Hw Hlive Hi.
    assert (Hzero : forall x : Q, (b + x == b + 0)%Q -> 
              slack h (now s) (start_time info) b (w_pc w) ->
              slack h (now s) (start_time info) (b + x) (w_pc w)).
    { intros x Hx. apply slack_proper. lra. }
    assert (Hb0 : (b + match threads s !! tid with
                       | Some _ | _ => 0
                       end == b + 0)%Q) by (destruct (threads s !! tid); lra).
    destruct (do_POST_state r s) as [Heq | (c & k & _ & _ & [Heq | [Heq | Heq]])];
      rewrite Heq in *.
    + apply Hzero; [done|]. by apply Hin.
    + unfold do_click in *.
      destruct (send_scancodes_for_key _ _) as [[[] msg] calls]; simpl in *;
        (apply Hzero; [done|]; by apply Hin).
    + unfold do_down in *.
      destruct (active_presses s !! (c, k)) eqn:E; simpl in *.
      { apply Hzero; [done|]. by apply Hin. }
      apply lookup_app_Some in Hw as [Hw | [Hlen Hw]].
      * destruct (worker_entry _ Hcons _ _ Hw Hlive) as (own & Hown & _).
        rewrite lookup_insert_ne in Hi by congruence.
        apply Hzero; [done|]. by apply Hin.
      * destruct (tid - length (threads s))%nat; [|by destruct n].
        simplify_eq/=. unfold pair_of in Hi. simpl in Hi.
        rewrite lookup_insert_eq in Hi. simplify_eq/=.
        destruct (threads s !! tid); lra.
    + unfold do_up in *. destruct (active_presses s !! (c, k)); simpl in *;
        (apply Hzero; [done|]; by apply Hin).
  - intros (w0 & p & effs & q & Hw0 & Hstep & Hn & _ & Ht & Ha & Hq)%work_frame.
    intros w info Hw Hlive Hi. rewrite Hn.
    apply (slack_proper _ _ b); [lra|].
    pose proof (lookup_lt_Some _ _ _ Hw0).
    rewrite Ht in Hw. rewrite Ha in Hi.
    destruct (decide (t = tid)) as [->|Hne].
    + rewrite list_lookup_insert_eq in Hw by done. injection Hw as <-.
      destruct (thread_step_live _ _ _ _ _ _ Hstep Hq) as [Hrun Hpop].
      specialize (Hpop (w_client w0) (w_key w0) (w_stop w0)).
      assert (Hpc : w_pc w0 <> L104).
      { intros Hpc. apply Hpop in Hpc. congruence. }
      assert (Hi0 : active_presses s !! pair_of w0 = Some info).
      { unfold pair_of in *. simpl in Hi. by destruct (w_pc w0). }
      simpl. eapply (landed (slack h (now s) (start_time info) b));
        [done | | done].
      eapply thread_step_slack; [|done].
      apply Hin; try done. by apply running_live.
    + rewrite list_lookup_insert_ne in Hw by done.
      apply Hin; try done.
      destruct (w_pc w0); try done.
      by apply lookup_delete_Some in Hi as [_ Hi].
  - intros [= <-]. intros w info Hw Hlive Hi. simpl in *.
    apply (slack_proper _ _ b); [lra|]. by apply Hin.
Qed.

Lemma exec_in_slack ls : forall s s' tid b,
  consistent s -> (0 <= b)%Q -> in_slack h s tid b -> exec ls s = Some s' ->
  in_slack h s' tid (b + busy tid ls s)%Q.
Proof.
  induction ls as [|l ls IH]; intros s s' tid b Hcons Hb Hin; simpl.
  - intros [= <-]. intros w info Hw Hl Hi.
    apply (slack_proper _ _ b); [lra|]. by apply Hin.
  - destruct (step l s) as [s1|] eqn:Hs; [|done]. intros Hex.
    pose proof (busy_step_nonneg tid _ _ _ Hs) as Hnn.
    pose proof (step_in_slack _ _ _ _ _ Hcons Hb Hin Hs) as Hin1.
    assert (Hb1 : (0 <= b + busy_step tid l s)%Q) by lra.
    pose proof (IH _ _ _ _ (step_consistent _ _ _ Hcons Hs) Hb1 Hin1 Hex) as Hin'.
    intros w info Hw Hl Hi.
    eapply slack_proper; [|by apply Hin']. lra.
Qed.

(** A running, registered worker is, at every moment of every run, less
    than [h + interval] plus its busy time past its registration. *)
Lemma lifetime_bound ls s tid w info :
  exec ls initial = Some s ->
  threads s !! tid = Some w -> running (w_pc w) = true ->
  active_presses s !! pair_of w = Some info ->
  (now s - start_time info < h + interval + busy tid ls initial)%Q.
Proof.
  intros Hex Hw Hrun Hi.
  assert (Hin : in_slack h s tid (0 + busy tid ls initial)%Q).
  { eapply exec_in_slack; [apply consistent_initial | lra | | done].
    intros w0 info0 Hw0. by simplify_list_eq. }
  specialize (Hin _ _ Hw (running_live _ Hrun) Hi).
  pose proof max_hold_pos. pose proof interval_pos.
  assert (Hbusy : (0 <= busy tid ls initial)%Q).
  { clear -Hex. revert Hex. generalize initial as s0. revert s.
    induction ls as [|l ls IH]; intros s s0; simpl; [lra|].
    destruct (step l s0) as [s1|] eqn:Hs; [|done]. intros Hex.
    pose proof (busy_step_nonneg tid _ _ _ Hs) as Hnn.
    specialize (IH _ _ Hex). lra. }
  destruct (w_pc w); simpl in Hin; try done; lra.
Qed.

End Lifetime.

(** ** The sends of a session *)

Section Sends.

Context {env : Env}.

Lemma send_count_cons tid l ls s :
  send_count tid (l :: ls) s
  = match step l s with
    | None => 0%nat
    | Some s' => (send_step tid l s + send_count tid ls s')%nat
    end.
Proof. reflexivity. Qed.

(** Between the loop test after a send and the next send an interval
    passes. *)
Lemma thread_step_spaced t0 t f p p' effs :
  spaced t0 t p -> repeat_thread_func t f p = Some (p', effs) ->
  spaced t0 t p'.
Proof.
  pose proof interval_pos as Hint.
  destruct p; simpl; intros Hs H; case_thread_step H; simpl;
    try done; try lra; try (split; lra).
Qed.

Lemma step_spaced l s s' tid t0 :
  (exists w, threads s !! tid = Some w /\ spaced t0 (now s) (w_pc w)) ->
  step l s = Some s' ->
  exists w, threads s' !! tid = Some w /\ spaced t0 (now s') (w_pc w).
Proof.
  intros (w & Hw & Hsp). destruct l as [d|r|t|]; simpl.
  - destruct (Qle_bool 0 d) eqn:Hd; [|done]. intros [= <-]. simpl.
    apply Qle_bool_iff in Hd. exists w. split; [done|].
    destruct (w_pc w); simpl in *; first [done | lra | split; lra].
  - intros [= <-]. exists w.
    destruct (do_POST_threads r s) as [-> [-> | (w0 & _ & ->)]]; [done|].
    split; [by apply lookup_app_l_Some | done].
  - intros (w0 & p & effs & q & Hw0 & Hstep & -> & _ & -> & _ & Hq)%work_frame.
    pose proof (lookup_lt_Some _ _ _ Hw0).
    destruct (decide (t = tid)) as [->|Hne].
    + rewrite Hw in Hw0. injection Hw0 as <-.
      eexists. split; [by apply list_lookup_insert_eq|]. simpl.
      eapply (landed (spaced t0 (now s))); [done | | done].
      by eapply thread_step_spaced.
    + exists w. by rewrite list_lookup_insert_ne.
  - intros [= <-]. by exists w.
Qed.

Lemma exec_spaced ls : forall s s' tid t0,
  (exists w, threads s !! tid = Some w /\ spaced t0 (now s) (w_pc w)) ->
  exec ls s = Some s' ->
  exists w, threads s' !! tid = Some w /\ spaced t0 (now s') (w_pc w).
Proof.
  induction ls as [|l ls IH]; intros s s' tid t0 Hsp; simpl.
  - by intros [= <-].
  - destruct (step l s) as [s1|] eqn:Hs; [|done].
    apply IH. by eapply step_spaced.
Qed.

(** Once its stop event is set a worker makes at most the send it is at,
    or its initial send. *)
Lemma step_signalled l s s' tid w :
  threads s !! tid = Some w -> events s !! w_stop w = Some true ->
  step l s = Some s' ->
  exists q,
    threads s' !! tid = Some (Worker (w_client w) (w_key w) (w_stop w) q)
    /\ (send_step tid l s + sends_when_signalled q
        <= sends_when_signalled (w_pc w))%nat.
Proof.
  intros Hw Hset. unfold send_step. rewrite Hw. simpl.
  destruct l as [d|r|t|]; simpl.
  - destruct (Qle_bool 0 d); [|done]. intros [= <-]. simpl.
    exists (w_pc w). split; [by destruct w | lia].
  - intros [= <-]. exists (w_pc w). split; [|lia].
    destruct (do_POST_threads r s) as [_ [-> | (w0 & _ & ->)]];
      [by destruct w|].
    apply lookup_app_l_Some. by destruct w.
  - intros (w0 & p & effs & q & Hw0 & Hstep & _ & _ & -> & _ & Hq)%work_frame.
    pose proof (lookup_lt_Some _ _ _ Hw0).
    destruct (Nat.eqb_spec t tid) as [->|Hne]; simpl.
    + rewrite Hw in Hw0. injection Hw0 as <-. rewrite Hset in Hstep.
      exists q. split; [by apply list_lookup_insert_eq|].
      destruct Hq as [-> | (l & -> & _)].
      * destruct (w_pc w); simpl in *; case_thread_step Hstep; simpl; lia.
      * destruct (w_pc w); simpl; lia.
    + exists (w_pc w). rewrite list_lookup_insert_ne by done.
      split; [by destruct w | lia].
  - intros [= <-]. exists (w_pc w). split; [by destruct w | lia].
Qed.

Lemma signalled_sends ls : forall s tid w,
  threads s !! tid = Some w -> events s !! w_stop w = Some true ->
  (send_count tid ls s <= sends_when_signalled (w_pc w))%nat.
Proof.
  induction ls as [|l ls IH]; intros s tid w Hw Hset; [simpl; lia|].
  rewrite send_count_cons.
  destruct (step l s) as [s1|] eqn:Hs; [|lia].
  destruct (step_signalled _ _ _ _ _ Hw Hset Hs) as (q & Hw1 & Hle).
  pose proof (step_flags _ _ _ (w_stop w) Hs) as [_ Hfl].
  specialize (IH s1 tid _ Hw1 (Hfl Hset)). simpl in IH. lia.
Qed.

Section Finite.

Variable h : Q.
Hypothesis finite_hold : MAX_HOLD_S = Finite h.

Lemma thread_step_sends t f p p' effs m :
  credit h t p m -> repeat_thread_func t f p = Some (p', effs) ->
  exists m',
    credit h t p' m'
    /\ (sends_left p' m' + (if at_send p then 1 else 0) <= sends_left p m)%nat.
Proof.
  destruct p; simpl; intros Hc H;
    rewrite ?(hold_reached_finite h _ finite_hold) in H;
    case_thread_step H;
    try (exists m; simpl; split; [|lia];
         first [done | lra | split; [lra | done] | destruct Hc; lra]).
  destruct m as [|m'].
  - exfalso. change (inject_Z (Z.of_nat 0)) with 0%Q in Hc. lra.
  - exists m'. rewrite (inject_succ m') in Hc.
    split; [simpl; lra | simpl; lia].
Qed.

Lemma step_sends_budget l s s' tid B :
  sends_budget h s tid B -> step l s = Some s' ->
  exists B', B = (B' + send_step tid l s)%nat /\ sends_budget h s' tid B'.
Proof.
  unfold sends_budget, send_step. intros Hb.
  destruct l as [d|r|t|]; simpl.
  - destruct (Qle_bool 0 d) eqn:Hd; [|done]. intros [= <-]. simpl.
    apply Qle_bool_iff in Hd. exists B.
    split; [by destruct (w_pc <$> threads s !! tid); lia|].
    destruct (threads s !! tid) as [w|]; [|done].
    destruct Hb as (m & Hc & Hs). exists m. split; [|done].
    eapply credit_mono; [|done]. lra.
  - intros [= <-]. exists B.
    split; [by destruct (w_pc <$> threads s !! tid); lia|].
    destruct (do_POST_threads r s) as [Hn [Ht | (w0 & Hpc & Ht)]];
      rewrite Hn, Ht; [done|].
    destruct (threads s !! tid) as [w|] eqn:Hw.
    + by rewrite (lookup_app_l_Some _ _ _ _ Hw).
    + apply lookup_ge_None in Hw.
      destruct (decide (tid = length (threads s))) as [->|Hne].
      * rewrite list_lookup_middle by done. rewrite Hpc.
        exists (max_iterations h).
        split; [apply max_iterations_enough | simpl; lia].
      * rewrite lookup_ge_None_2; [done|]. rewrite length_app. simpl. lia.
  - intros (w & p & effs & q & Hw & Hstep & Hn & _ & Ht & _ & Hq)%work_frame.
    pose proof (lookup_lt_Some _ _ _ Hw).
    destruct (Nat.eqb_spec t tid) as [->|Hne]; simpl.
    + rewrite Hw in *. simpl. destruct Hb as (m & Hc & Hs).
      destruct (thread_step_sends _ _ _ _ _ _ Hc Hstep) as (m' & Hc' & Hs').
      exists (B - (if at_send (w_pc w) then 1 else 0))%nat.
      split; [destruct (at_send (w_pc w)); lia|].
      rewrite Ht, Hn, list_lookup_insert_eq by done. simpl.
      destruct Hq as [-> | (l & -> & _)].
      * exists m'. split; [done|]. destruct (at_send (w_pc w)); lia.
      * exists 0%nat. simpl. split; [done | lia].
    + exists B. split; [by destruct (w_pc <$> threads s !! tid); lia|].
      rewrite Ht, Hn, list_lookup_insert_ne by done. done.
  - intros [= <-]. exists B.
    split; [by destruct (w_pc <$> threads s !! tid); lia | done].
Qed.

Lemma send_count_budget ls : forall s tid B,
  sends_budget h s tid B -> (send_count tid ls s <= B)%nat.
Proof.
  induction ls as [|l ls IH]; intros s tid B Hb; [simpl; lia|].
  rewrite send_count_cons.
  destruct (step l s) as [s1|] eqn:Hs; [|lia].
  destruct (step_sends_budget _ _ _ _ _ Hb Hs) as (B' & -> & Hb').
  specialize (IH _ _ _ Hb'). lia.
Qed.

End Finite.

End Sends.

(** ** Exceptions *)

Section Exceptions.

Context {env : Env}.

(** A thread is ended by an exception only for one of three reasons: a
    line that stdout does not encode, an interval that is no float, a
    wait that is too long. *)
Lemma work_raises tid s s' w w' l :
  work tid s = Some s' ->
  threads s !! tid = Some w -> threads s' !! tid = Some w' ->
  w_pc w' = Raised l -> raises w s l.
Proof.
  intros (w0 & p & effs & Hw0 & Hstep & ->)%work_inv Hw Hw' Hpc.
  rewrite Hw in Hw0. injection Hw0 as <-.
  pose proof (lookup_lt_Some _ _ _ Hw) as Hlt.
  assert (Hland : landing p (snd (run_effects w effs s)) = Raised l).
  { simpl in Hw'.
    destruct (run_effects_frame w effs s) as (_ & _ & Hth).
    rewrite Hth, list_lookup_insert_eq in Hw' by done.
    injection Hw' as <-. done. }
  clear Hw'. unfold raises.
  destruct (w_pc w) eqn:Hp; simpl in Hstep; try done.
  - injection Hstep as <- <-. simpl in Hland. discriminate.
  - injection Hstep as <- <-. simpl in Hland. unfold print in Hland.
    destruct (send_scancodes_for_key (w_key w) (hw_calls s))
      as [[ok msg] calls]; simpl in *.
    destruct (stdout_encodes _) eqn:Hout; simpl in Hland.
    + destruct int_too_large eqn:Hbig; [|discriminate].
      injection Hland as <-. eauto.
    + injection Hland as <-. eauto.
  - destruct (default false (events s !! w_stop w));
      injection Hstep as <- <-; simpl in Hland; discriminate.
  - destruct (hold_reached (now s - start)) eqn:Hhold;
      injection Hstep as <- <-; simpl in Hland; [|discriminate].
    unfold print in Hland.
    destruct (stdout_encodes _) eqn:Hout; simpl in Hland; [discriminate|].
    injection Hland as <-. eauto.
  - destruct (events s !! w_stop w) as [[]|] eqn:Hev; simpl in Hstep.
    + injection Hstep as <- <-. simpl in Hland. discriminate.
    + destruct wait_raises eqn:Hwr.
      * injection Hstep as <- <-. simpl in Hland. injection Hland as <-.
        split; [eauto|]. by split.
      * destruct (Qle_bool deadline (now s)); [|done].
        injection Hstep as <- <-. simpl in Hland. discriminate.
    + destruct wait_raises eqn:Hwr.
      * injection Hstep as <- <-. simpl in Hland. injection Hland as <-.
        split; [eauto|]. by split.
      * destruct (Qle_bool deadline (now s)); [|done].
        injection Hstep as <- <-. simpl in Hland. discriminate.
  - injection Hstep as <- <-. simpl in Hland. unfold print in Hland.
    destruct (send_scancodes_for_key (w_key w) (hw_calls s))
      as [[ok msg] calls]; simpl in *.
    destruct (stdout_encodes _) eqn:Hout; simpl in Hland; [discriminate|].
    injection Hland as <-. eauto.
  - injection Hstep as <- <-. simpl in Hland. unfold print in Hland.
    destruct (stdout_encodes _) eqn:Hout; simpl in Hland; [discriminate|].
    injection Hland as <-. eauto.
Qed.

Lemma reachable_named s : reachable s -> named s.
Proof.
  intros [ls Hls].
  assert (Hgen : forall ls s0 s1, named s0 -> exec ls s0 = Some s1 -> named s1).
  { clear. induction ls as [|l ls IH]; intros s0 s1 H0; simpl.
    - by intros [= <-].
    - destruct (step l s0) as [s2|] eqn:Hs; [|done].
      apply IH. by eapply step_named. }
  eapply Hgen; [|done]. split.
  - intros c k info Hi. simpl in Hi. by rewrite lookup_empty in Hi.
  - intros tid w Hw. by simplify_list_eq.
Qed.

End Exceptions.

(** * The claims *)

Section Claims.

Context {env : Env}.

Lemma live_unique s tid1 tid2 w1 w2 :
  consistent s ->
  threads s !! tid1 = Some w1 -> threads s !! tid2 = Some w2 ->
  live w1 = true -> live w2 = true -> pair_of w1 = pair_of w2 ->
  tid1 = tid2.
Proof.
  intros [_ H2 _] Hw1 Hw2 Hl1 Hl2 Hp.
  destruct (H2 _ _ Hw1 Hl1) as (i1 & Hi1 & <-).
  destruct (H2 _ _ Hw2 Hl2) as (i2 & Hi2 & <-).
  rewrite Hp in Hi1. congruence.
Qed.

(** C1: for every (client_id, key) pair at most one press session exists
    at any instant.  In every reachable state two live workers of one pair
    are the same worker; a "down" for a pair that has an entry answers
    "already down" and changes nothing (no entry, no worker), the entry
    being that of one live worker; a "down" for a pair without an entry
    answers "started", inserts exactly that entry and appends exactly one
    worker, no live worker of the pair existing before; and the state
    after the request is again reachable. *)
Theorem C1_one_session_per_pair s client_id key :
  reachable s -> client_id <> "" -> key <> "" ->
  let k := (client_id, key) in
  let r := do_POST (action_request "down" client_id key) s in
  (forall tid1 tid2 w1 w2,
      threads s !! tid1 = Some w1 -> threads s !! tid2 = Some w2 ->
      live w1 = true -> live w2 = true -> pair_of w1 = pair_of w2 ->
      tid1 = tid2)
  /\ (forall info,
        active_presses s !! k = Some info ->
        r = (ReplyMsg 200 "already down", s)
        /\ exists w, threads s !! thread info = Some w /\ pair_of w = k
                     /\ live w = true)
  /\ (active_presses s !! k = None ->
        r = (ReplyMsg 200 "started",
             {| now := now s;
                active_presses :=
                  <[k := Press (length (threads s)) (length (events s)) (now s)]>
                    (active_presses s);
                events := events s ++ [false];
                threads :=
                  threads s ++ [Worker client_id key (length (events s)) L91];
                hw_calls := hw_calls s; console := console s |})
        /\ forall tid w,
             threads s !! tid = Some w -> live w = true -> pair_of w <> k)
  /\ reachable (snd r).
Proof.
  intros Hr Hc Hk k r.
  destruct (reachable_invariant _ Hr) as [Hcons _].
  assert (Hr' : r = do_down client_id key s).
  { unfold r. by rewrite do_POST_action. }
  split; [|split; [|split]].
  - intros. by eapply live_unique.
  - intros info Hi. split.
    + rewrite Hr'. unfold do_down. fold k. by rewrite Hi.
    + destruct (entry_worker _ Hcons _ _ Hi) as (w & ? & ? & _ & ?). eauto.
  - intros Hnone. split.
    + rewrite Hr'. unfold do_down. fold k. by rewrite Hnone.
    + intros tid w Hw Hl Hp.
      destruct (worker_entry _ Hcons _ _ Hw Hl) as (info & Hi & _).
      rewrite Hp in Hi. congruence.
  - eapply reachable_exec; [done|].
    instantiate (1 := [Post (action_request "down" client_id key)]). done.
Qed.


(** C3 (amended): a session that is never signalled, whose thread no
    exception ends and whose maximal hold is finite, terminates by itself
    through the max-hold check and deregisters.  With [MAX_HOLD_S] the
    finite [h], in a state [s] reached by a run [ls0]: the worker executes
    at most [4 * max_iterations h + 5] further statements whatever else
    happens; a running worker can always execute its next statement, at
    once or, inside a wait, when the wait's deadline has come; with the
    stop event unset it leaves the loop for the pop only by
    [elapsed >= MAX_HOLD_S]; the pop removes its entry and ends it.  While
    it runs and is registered, the time since its registration is less
    than [h + interval] plus the busy time of its thread in the run: the
    time it has spent starting up, executing its statements -- the
    blocking sends -- and being delayed, that is all the time but the
    waits of l.100 up to their deadlines.  A statement raises only when
    stdout does not encode the line it prints, when l.94 overflows, or when
    the wait is too long for the unset event. *)
Theorem C3_session_terminates_by_itself ls0 s tid w h :
  MAX_HOLD_S = Finite h ->
  exec ls0 initial = Some s -> threads s !! tid = Some w ->
  (forall ls s',
      exec ls s = Some s' ->
      (work_count tid ls <= 4 * max_iterations h + 5)%nat)
  /\ (running (w_pc w) = true ->
      exists d s1 s2,
        (0 <= d)%Q /\ step (Tick d) s = Some s1
        /\ step (Work tid) s1 = Some s2
        /\ ((d == 0)%Q
            \/ exists start deadline,
                 w_pc w = L100 start deadline /\ (now s + d == deadline)%Q))
  /\ (forall s',
        in_loop (w_pc w) = true -> events s !! w_stop w = Some false ->
        step (Work tid) s = Some s' ->
        threads s' !! tid
          = Some (Worker (w_client w) (w_key w) (w_stop w) L104) ->
        exists start, w_pc w = L96 start /\ (h <= now s - start)%Q)
  /\ (w_pc w = L104 ->
      exists s' p,
        step (Work tid) s = Some s'
        /\ active_presses s' !! pair_of w = None
        /\ threads s' !! tid
           = Some (Worker (w_client w) (w_key w) (w_stop w) p)
        /\ running p = false)
  /\ (forall info,
        running (w_pc w) = true ->
        active_presses s !! pair_of w = Some info ->
        (now s - start_time info
         < h + interval + busy tid ls0 initial)%Q)
  /\ (forall start deadline,
        w_pc w = L100 start deadline ->
        (start <= now s)%Q /\ (deadline < start + h + interval)%Q)
  /\ (forall s' w' l,
        step (Work tid) s = Some s' -> threads s' !! tid = Some w' ->
        w_pc w' = Raised l -> raises w s l).
Proof.
  intros Hfin Hex0 Hw.
  assert (Hr : reachable s) by (by exists ls0).
  destruct (reachable_invariant _ Hr) as [Hcons Htime].
  pose proof (lookup_lt_Some _ _ _ Hw) as Hlt.
  split; [|split; [|split; [|split; [|split; [|split]]]]].
  - intros ls s' Hex. eapply exec_budget; [done| |done].
    by apply reachable_budget.
  - intros Hrun. by apply worker_progress.
  - intros s' Hin Hflag Hstep Hw'. simpl in Hstep.
    apply work_frame in Hstep
      as (w1 & p & effs & q & Hw1 & Hts & _ & _ & Ht & _ & Hq).
    rewrite Hw in Hw1. injection Hw1 as <-.
    rewrite Ht, list_lookup_insert_eq in Hw' by done.
    injection Hw' as ->.
    destruct Hq as [<- | (l & ? & _)]; [|done].
    rewrite Hflag in Hts. simpl in Hts.
    destruct (loop_exit_cause _ _ _ _ Hin Hts) as [? | (start & Hp & Hh)];
      [done|].
    exists start. split; [done|].
    rewrite (hold_reached_finite h _ Hfin) in Hh. by apply Qle_bool_iff.
  - intros Hpc.
    assert (Hwork : exists s', work tid s = Some s').
    { eapply work_enabled; [done|]. by rewrite Hpc. }
    destruct Hwork as [s' Hwork]. exists s'.
    pose proof Hwork as Hfr.
    apply work_frame in Hfr
      as (w1 & p & effs & q & Hw1 & Hts & _ & _ & Ht & Ha & Hq).
    rewrite Hw in Hw1. injection Hw1 as <-. rewrite Hpc in *. simpl in Hts.
    injection Hts as <- <-. exists q. split; [done|]. split; [|split].
    + rewrite Ha. apply lookup_delete_eq.
    + rewrite Ht. by apply list_lookup_insert_eq.
    + by destruct Hq as [-> | (l & -> & _)].
  - intros info Hrun Hi. by eapply lifetime_bound.
  - intros start deadline Hpc. specialize (Htime _ _ Hw).
    rewrite Hpc in Htime. destruct Htime as [H1 H2]. split; [done|].
    by apply H2.
  - intros s' w' l Hstep Hw' Hpc. by eapply work_raises.
Qed.

(** C4 (amended): the result of a session's initial send is not reported
    to the caller of "down".  The response to a well-formed "down" is
    "started" or "already down" whatever the send will return, and the
    handler itself invokes nothing and prints no result; the initial send
    is made by the worker at l.92, which only prints its result, when
    stdout encodes the line; the result of the send of a "click" is
    reported to its caller, status 500 with the message when it
    failed. *)
Theorem C4_down_does_not_report_the_send s client_id key :
  client_id <> "" -> key <> "" ->
  let r := do_POST (action_request "down" client_id key) s in
  (fst r = ReplyMsg 200 "started" \/ fst r = ReplyMsg 200 "already down")
  /\ hw_calls (snd r) = hw_calls s /\ console (snd r) = console s
  /\ (forall tid w start,
        threads s !! tid = Some w -> w_pc w = L92 start ->
        let line :=
          send_line (w_client w) (w_key w) false
            (fst (fst (send_scancodes_for_key (w_key w) (hw_calls s))))
            (snd (fst (send_scancodes_for_key (w_key w) (hw_calls s)))) in
        exists s',
          step (Work tid) s = Some s'
          /\ hw_calls s' = snd (send_scancodes_for_key (w_key w) (hw_calls s))
          /\ console s'
             = console s ++ (if stdout_encodes line then [line] else [])
          /\ active_presses s' = active_presses s)
  /\ fst (do_POST (action_request "click" client_id key) s)
     = (if fst (fst (send_scancodes_for_key key (hw_calls s)))
        then ReplyMsg 200 "sent"
        else ReplyError 500
               (snd (fst (send_scancodes_for_key key (hw_calls s))))).
Proof.
  intros Hc Hk r.
  assert (Hr : r = do_down client_id key s).
  { unfold r. by rewrite do_POST_action. }
  rewrite Hr. unfold do_down.
  split; [|split; [|split; [|split]]].
  - destruct (active_presses s !! (client_id, key)); auto.
  - by destruct (active_presses s !! (client_id, key)).
  - by destruct (active_presses s !! (client_id, key)).
  - intros tid w start Hw Hpc. cbv zeta. simpl. unfold work.
    rewrite Hw, Hpc. simpl. unfold print.
    destruct (send_scancodes_for_key (w_key w) (hw_calls s))
      as [[ok msg] calls]. simpl.
    destruct (stdout_encodes _); simpl; eexists; (split; [done|]); simpl;
      by rewrite ?app_nil_r.
  - rewrite do_POST_action by done. simpl. unfold do_click.
    by destruct (send_scancodes_for_key key (hw_calls s)) as [[[] msg] calls].
Qed.

(** C5 (what the code does instead): a thread that an exception ends
    before l.104 never removes its entry.  In a reachable state where a
    thread was ended at a statement other than the print of l.106, the
    pair of the thread is registered to that thread; in every
    continuation the thread executes nothing, the entry stays, a "down"
    for the pair answers "already down" and an "up" answers
    "stopping". *)
Theorem C5_exception_exit_keeps_the_entry s tid w l :
  reachable s -> threads s !! tid = Some w ->
  w_pc w = Raised l -> l <> At106 ->
  exists info,
    thread info = tid
    /\ forall ls s',
         exec ls s = Some s' ->
         work_count tid ls = 0%nat
         /\ threads s' !! tid = Some w
         /\ active_presses s' !! pair_of w = Some info
         /\ do_POST (action_request "down" (w_client w) (w_key w)) s'
            = (ReplyMsg 200 "already down", s')
         /\ fst (do_POST (action_request "up" (w_client w) (w_key w)) s')
            = ReplyMsg 200 "stopping".
Proof.
  intros Hr Hw Hpc Hl.
  destruct (reachable_invariant _ Hr) as [Hcons _].
  destruct (reachable_named _ Hr) as [_ Hnamed].
  destruct (Hnamed _ _ Hw) as [Hc Hk].
  assert (Hend : running (w_pc w) = false) by (by rewrite Hpc).
  assert (Hlive : live w = true).
  { unfold live. rewrite Hpc. by destruct l. }
  destruct (worker_entry _ Hcons _ _ Hw Hlive) as (info & Hi & Hti).
  exists info. split; [done|]. intros ls s' Hex.
  destruct (exec_ended _ _ _ _ _ Hw Hend Hex) as [Hcount Hw'].
  pose proof (unpopped_entry_stays _ _ _ _ _ _ Hcons Hw Hend Hlive Hi Hex)
    as Hi'.
  split; [done|]. split; [done|]. split; [done|].
  unfold pair_of in Hi'.
  rewrite !do_POST_action by done. simpl. unfold do_down, do_up.
  by rewrite Hi'.
Qed.

(** C6: send_scancodes_for_key fails with the unknown-key message when
    the key is absent from KEYMAP and with the no-scancodes message when
    its definition is the empty list, and in both cases the log of
    invocations is unchanged: no hardware call is made.  A "click" on
    such a key answers 500 with that message and leaves the state as it
    was. *)
Theorem C6_unknown_or_empty_key_sends_nothing key_name client_id calls s :
  KEYMAP !! key_name = None \/ KEYMAP !! key_name = Some (JList []) ->
  key_name <> "" -> client_id <> "" ->
  let msg := match KEYMAP !! key_name with
             | None => "Unknown key: " +:+ key_name
             | Some _ => "Key " +:+ key_name +:+ " has no scancodes"
             end in
  send_scancodes_for_key key_name calls = ((false, msg), calls)
  /\ do_POST (action_request "click" client_id key_name) s
     = (ReplyError 500 msg, s).
Proof.
  intros Hkey Hk Hc msg.
  assert (Hsend : forall calls,
             send_scancodes_for_key key_name calls = ((false, msg), calls)).
  { intros calls0. unfold send_scancodes_for_key, msg.
    by destruct Hkey as [-> | ->]. }
  split; [apply Hsend|].
  rewrite do_POST_action by done. simpl. unfold do_click.
  rewrite Hsend. by destruct s.
Qed.

Lemma all_complete_lookup scs : forall calls,
  all_complete scs calls = true ->
  forall i sc,
    scs !! i = Some sc ->
    ir_ctl (calls ++ sent (take i scs)) (scancode_cmd sc) = Completed.
Proof.
  induction scs as [|x rest IH]; intros calls Hall i sc Hi; [done|].
  simpl in Hall.
  destruct (ir_ctl calls (scancode_cmd x)) eqn:E; try discriminate.
  destruct i as [|i]; simpl in *.
  - injection Hi as <-. by rewrite app_nil_r.
  - specialize (IH _ Hall i sc Hi).
    change (Call (scancode_cmd x) Completed :: sent (take i rest))
      with (sent [x] ++ sent (take i rest)).
    by rewrite app_assoc.
Qed.

Lemma string_app_assoc (a b c : string) : (a +:+ b) +:+ c = a +:+ (b +:+ c).
Proof.
  induction a as [|x a IH]; [done|].
  change (String x ((a +:+ b) +:+ c) = String x (a +:+ (b +:+ c))).
  by f_equal.
Qed.

(** C7: for a key with a non-empty definition the scancodes are
    transmitted in the order of the definition, one invocation each, the
    invocation for a scancode [sc] being
    [ir-ctl -d IR_DEVICE --scancode nec:sc].  Either the tool completes
    every one of them, asked in this order, and the result is OK with
    these calls appended to the log; or there is a first scancode on
    which the invocation fails: the calls for the scancodes before it
    stay in the log, this one call is appended after them, nothing is
    invoked for the scancodes behind it, and the result is a failure with
    the message of that invocation -- the command and the exit code for
    a failed command, the tool-missing message when ir-ctl cannot be
    started, the text of any other exception. *)
Theorem C7_transmits_in_order_until_first_failure key_name scs calls :
  KEYMAP !! key_name = Some (JList scs) -> scs <> [] ->
  let cmd := fun sc =>
    ["ir-ctl"; "-d"; IR_DEVICE; "--scancode"; "nec:" +:+ py_str sc] in
  let completed := fun pre => (fun sc => Call (cmd sc) Completed) <$> pre in
  ((forall i sc,
       scs !! i = Some sc ->
       ir_ctl (calls ++ completed (take i scs)) (cmd sc) = Completed)
   /\ send_scancodes_for_key key_name calls
      = ((true, "OK"), calls ++ completed scs))
  \/ (exists pre sc post,
        let r := ir_ctl (calls ++ completed pre) (cmd sc) in
        scs = pre ++ sc :: post
        /\ (forall i x,
              pre !! i = Some x ->
              ir_ctl (calls ++ completed (take i pre)) (cmd x) = Completed)
        /\ r <> Completed
        /\ send_scancodes_for_key key_name calls
           = ((false,
               match r with
               | Completed => "OK"
               | CalledProcessError returncode =>
                   "Command failed: ir-ctl -d " +:+ IR_DEVICE
                     +:+ " --scancode nec:" +:+ py_str sc +:+ " -> "
                     +:+ pretty returncode
               | FileNotFoundError =>
                   "ir-ctl not found (请安装 v4l-utils 或确保 ir-ctl 在 PATH)"
               | OtherException e => "执行出错: " +:+ e
               end),
              calls ++ completed pre ++ [Call (cmd sc) r])).
Proof.
  intros Hk Hne cmd completed. rewrite (send_nonempty _ _ _ Hk Hne).
  change cmd with scancode_cmd in *.
  change completed with sent in *.
  destruct (all_complete_cases scs calls)
    as [Hall | (pre & sc & post & -> & Hpre & Hr)].
  - left. split; [by apply all_complete_lookup | by apply send_each_complete].
  - right. exists pre, sc, post. cbv zeta.
    split; [done|]. split; [by apply all_complete_lookup|]. split; [done|].
    rewrite (send_each_first_failure _ _ _ _ Hpre Hr).
    destruct (ir_ctl (calls ++ sent pre) (scancode_cmd sc)) as [|rc| |e];
      try done.
    do 2 f_equal.
    exact (f_equal (String.append "Command failed: ir-ctl -d ")
             (string_app_assoc IR_DEVICE (" --scancode nec:" +:+ py_str sc)
                (" -> " +:+ pretty rc))).
Qed.



(** C10 (amended): between the "up" that signals a session and the moment
    its worker deregisters, the pair cannot be pressed again, and this
    window is not bounded by the interval.  In a reachable state where the
    stop event of a worker that has not popped is set, the entry of its
    pair is still there, an "up" leaves it there, a "down" for the pair
    answers "already down" and changes nothing, and the entry goes only by
    that worker's own pop.  In every continuation the worker has executed
    at most four statements, a running worker can execute its next
    statement at once -- an interrupted wait returns immediately -- and a
    worker that has returned has removed its entry.  The worker makes no
    send but the one it is at: a send in progress is not interrupted, and
    a worker that has not made its initial send still makes it. *)
Theorem C10_no_new_press_while_stopping s tid w :
  reachable s -> threads s !! tid = Some w -> live w = true ->
  events s !! w_stop w = Some true ->
  w_client w <> "" -> w_key w <> "" ->
  do_POST (action_request "down" (w_client w) (w_key w)) s
  = (ReplyMsg 200 "already down", s)
  /\ active_presses
       (snd (do_POST (action_request "up" (w_client w) (w_key w)) s))
     = active_presses s
  /\ (forall l s',
        step l s = Some s' -> active_presses s' !! pair_of w = None ->
        l = Work tid /\ w_pc w = L104)
  /\ (forall ls s',
        exec ls s = Some s' ->
        exists q,
          threads s' !! tid
          = Some (Worker (w_client w) (w_key w) (w_stop w) q)
          /\ (work_count tid ls + rank q <= 4)%nat
          /\ (running q = true -> exists s'', step (Work tid) s' = Some s'')
          /\ (q = Exited ->
              forall info,
                active_presses s' !! pair_of w = Some info ->
                thread info <> tid))
  /\ (forall ls,
        (send_count tid ls s
         <= match w_pc w with L91 | L92 _ | L102 _ => 1 | _ => 0 end)%nat).
Proof.
  intros Hr Hw Hlive Hset Hc Hk.
  destruct (reachable_invariant _ Hr) as [Hcons _].
  destruct (worker_entry _ Hcons _ _ Hw Hlive) as (info & Hi & Hti).
  unfold pair_of in Hi.
  split; [|split; [|split; [|split]]].
  - rewrite do_POST_action by done. simpl. unfold do_down. by rewrite Hi.
  - rewrite do_POST_action by done. simpl. unfold do_up. by rewrite Hi.
  - intros l s' Hstep Hnone.
    destruct (step_removal _ _ _ _ _ Hstep Hi Hnone)
      as (tid' & w' & -> & Hw' & Hpc' & Hp).
    assert (tid' = tid).
    { eapply live_unique; try done. unfold live. by rewrite Hpc'. }
    subst tid'. rewrite Hw in Hw'. by simplify_eq.
  - intros ls s' Hex.
    destruct (drain_all _ _ _ _ _ Hw Hset Hex) as (q & Hw' & Hset' & Hrank).
    exists q. split; [done|]. split; [|split].
    + assert (rank (w_pc w) <= 4)%nat by (destruct (w_pc w); simpl; lia).
      lia.
    + intros Hrun.
      destruct (drain_one _ _ _ Hw' Hrun Hset') as (s'' & _ & Hs'' & _).
      eauto.
    + intros -> info' Hi' Heq.
      assert (Hcons' : consistent s').
      { destruct (reachable_invariant s') as [? _]; [|done].
        by eapply reachable_exec. }
      destruct (entry_worker _ Hcons' _ _ Hi') as (w0 & Hw0 & _ & _ & Hl0).
      rewrite Heq, Hw' in Hw0. by simplify_eq.
  - intros ls. exact (signalled_sends ls s tid w Hw Hset).
Qed.

End Claims.


(** * The claims on the concrete installation *)

(** The second of two scancodes fails: the first call stays in the log, the
    message names the failed command and its exit code. *)
Example demo_second_scancode_fails :
  @send_scancodes_for_key (Demo.env_with Demo.tool_second_fails) "power" []
  = ((false, "Command failed: ir-ctl -d /dev/lirc0 --scancode nec:0x11 -> 1"),
     [Call ["ir-ctl"; "-d"; "/dev/lirc0"; "--scancode"; "nec:0x10"] Completed;
      Call ["ir-ctl"; "-d"; "/dev/lirc0"; "--scancode"; "nec:0x11"]
        (CalledProcessError 1)]).
Proof. vm_compute. reflexivity. Qed.

(** A "down" for an unknown key: the worker prints the failure of the
    initial send and stays in its loop. *)
Example demo_unknown_key_is_only_printed :
  (fun s => (threads s, console s, hw_calls s))
    <$> @exec Demo.env
          [Post (action_request "down" "c1" "nonexistent_key"); Work 0; Work 0]
          initial
  = Some ([Worker "c1" "nonexistent_key" 0 (L95 0)],
          ["[c1] nonexistent_key initial send -> False, Unknown key: nonexistent_key"],
          []).
Proof. vm_compute. reflexivity. Qed.

(** With sends that take no time the never-released press of the demo is
    about to deregister after exactly five seconds, 51 sends made. *)
Example demo_ideal_press :
  (fun s => (Qred (now s), w_pc <$> threads s, length (console s)))
    <$> @exec Demo.env
          ([Demo.down; Work 0; Work 0]
             ++ concat (replicate 50 [Work 0; Work 0; Tick (1 # 10);
                                      Work 0; Work 0])
             ++ [Work 0; Work 0])
          initial
  = Some (5%Q, [L104], 52%nat).
Proof. vm_compute. reflexivity. Qed.

(** The client id ["\ud800"]: the initial send is made, its two calls are
    in the log, nothing is printed, the thread is ended at l.93 and its
    entry is still in the registry. *)
Example demo_surrogate_client_id :
  (fun s => (w_pc <$> threads s, console s, length (hw_calls s),
             active_presses s !! (lone_surrogate, "power")))
    <$> @exec Demo.env Demo.to_dead initial
  = Some ([Raised At93], [], 2%nat, Some (Press 0 0 0)).
Proof. vm_compute. reflexivity. Qed.

(** Started with [--repeat-interval 10000000000000000], the first wait of
    a session raises OverflowError. *)
Example demo_long_interval :
  (fun s => w_pc <$> threads s)
    <$> @exec Demo.long_interval (Demo.to_wait ++ [Work 0]) initial
  = Some [Raised At100].
Proof. vm_compute. reflexivity. Qed.

Lemma demo_reachable (e : Env) ls s :
  @exec e ls initial = Some s -> @reachable e (Demo.run e ls).
Proof. intros H. exists ls. unfold Demo.run. by rewrite H. Defined.

(** With [--max-hold inf] a pass of the loop leads back to the loop
    test. *)
Lemma forever_pass (s : state) :
  threads s = [Worker "c1" "power" 0 (L95 0)] -> events s = [false] ->
  exists s',
    @exec Demo.forever Demo.pass s = Some s'
    /\ threads s' = [Worker "c1" "power" 0 (L95 0)] /\ events s' = [false].
Proof.
  destruct s as [t ap ev th hw co]. simpl. intros -> ->.
  unfold work. simpl.
  assert (Hle : Qle_bool (t + @interval Demo.forever) (t + (1 # 10)) = true).
  { apply Qle_bool_iff, Qplus_le_r. by vm_compute. }
  rewrite Hle. simpl. unfold print. simpl.
  eexists. split; [done|]. done.
Qed.

Lemma forever_loop n : forall s,
  threads s = [Worker "c1" "power" 0 (L95 0)] -> events s = [false] ->
  exists s',
    @exec Demo.forever (concat (replicate n Demo.pass)) s = Some s'
    /\ threads s' = [Worker "c1" "power" 0 (L95 0)] /\ events s' = [false].
Proof.
  induction n as [|n IH]; intros s Hth Hev.
  - exists s. by simpl.
  - destruct (forever_pass s Hth Hev) as (s1 & H1 & Hth1 & Hev1).
    destruct (IH s1 Hth1 Hev1) as (s2 & H2 & Hth2 & Hev2).
    exists s2. split; [|done].
    change (concat (replicate (S n) Demo.pass))
      with (Demo.pass ++ concat (replicate n Demo.pass)).
    by rewrite (@exec_app Demo.forever), H1.
Qed.

Lemma forever_passes n :
  exists s,
    @exec Demo.forever (Demo.passes n) initial = Some s
    /\ threads s = [Worker "c1" "power" 0 (L95 0)] /\ events s = [false].
Proof.
  unfold Demo.passes. rewrite (@exec_app Demo.forever).
  assert (H0 : exists s0,
             @exec Demo.forever [Demo.down; Work 0; Work 0] initial = Some s0
             /\ threads s0 = [Worker "c1" "power" 0 (L95 0)]
             /\ events s0 = [false]).
  { eexists. split; [by vm_compute|]. done. }
  destruct H0 as (s0 & -> & Hth & Hev). by apply forever_loop.
Qed.

Lemma work_count_passes n :
  work_count 0 (Demo.passes n) = (2 + 4 * n)%nat.
Proof.
  unfold Demo.passes. simpl. do 2 f_equal.
  induction n as [|n IH]; [done|].
  change (concat (replicate (S n) Demo.pass))
    with (Demo.pass ++ concat (replicate n Demo.pass)).
  simpl. rewrite IH. lia.
Qed.

Lemma C1_witness :
  @reachable Demo.env Demo.held /\ "c1" <> "" /\ "power" <> ""
  /\ @do_POST Demo.env (action_request "down" "c1" "power") Demo.held
     = (ReplyMsg 200 "already down", Demo.held).
Proof.
  assert (Hr : @reachable Demo.env Demo.held).
  { eapply demo_reachable. vm_compute. reflexivity. }
  assert (Hc : "c1" <> "") by discriminate.
  assert (Hk : "power" <> "") by discriminate.
  split; [exact Hr|]. split; [exact Hc|]. split; [exact Hk|].
  destruct (@C1_one_session_per_pair Demo.env Demo.held "c1" "power" Hr Hc Hk)
    as (_ & Hdown & _).
  destruct (Hdown (Press 0 0 0)) as [Hreply _]; [vm_compute; reflexivity|].
  exact Hreply.
Defined.


Lemma C3_witness :
  @MAX_HOLD_S Demo.env = Finite 5
  /\ @exec Demo.env Demo.slow_sends initial = Some Demo.at_pop
  /\ threads Demo.at_pop !! 0%nat = Some (Worker "c1" "power" 0 L104)
  /\ (exists s',
        @step Demo.env (Work 0) Demo.at_pop = Some s'
        /\ active_presses s' !! ("c1", "power") = None)
  /\ (now Demo.at_pop - 0
      < 5 + @interval Demo.env
        + @busy Demo.env 0 Demo.slow_sends initial)%Q.
Proof.
  assert (Hh : @MAX_HOLD_S Demo.env = Finite 5).
  { vm_compute. reflexivity. }
  assert (Hex : @exec Demo.env Demo.slow_sends initial = Some Demo.at_pop).
  { vm_compute. reflexivity. }
  assert (Hw : threads Demo.at_pop !! 0%nat = Some (Worker "c1" "power" 0 L104)).
  { vm_compute. reflexivity. }
  split; [exact Hh|]. split; [exact Hex|]. split; [exact Hw|].
  destruct (@C3_session_terminates_by_itself Demo.env _ Demo.at_pop 0 _ 5
              Hh Hex Hw)
    as (_ & _ & _ & Hpop & Hlife & _).
  split.
  - destruct (Hpop eq_refl) as (s' & p & Hstep & Hnone & _).
    exists s'. split; [exact Hstep | exact Hnone].
  - apply (Hlife (Press 0 0 0) eq_refl). vm_compute. reflexivity.
Defined.

(** The session of [Demo.slow_sends] is never signalled and is about to
    deregister 5.4 seconds after it was registered, with maxHold 5 and an
    interval of 0.1 seconds.  Started with [--max-hold inf], a session that
    is never signalled executes more statements than any number.  The
    thread of the client id ["\ud800"] has ended and its session is
    registered. *)
Lemma C3_counterexample :
  ~ (forall h s,
        @MAX_HOLD_S Demo.env = Finite h -> @reachable Demo.env s ->
        lifetime_within (h + @interval Demo.env)%Q s)
  /\ ~ (exists n, @unsignalled_ends_within Demo.forever n)
  /\ ~ @ended_sessions_are_deregistered Demo.env.
Proof.
  split; [|split].
  - intros Hclaim.
    assert (Hh : @MAX_HOLD_S Demo.env = Finite 5) by (by vm_compute).
    assert (Hr : @reachable Demo.env Demo.at_pop).
    { eapply demo_reachable. vm_compute. reflexivity. }
    specialize (Hclaim 5%Q _ Hh Hr 0%nat (Worker "c1" "power" 0 L104)
                  (Press 0 0 0)).
    assert (Hle : (now Demo.at_pop - start_time (Press 0 0 0)
                   <= 5 + @interval Demo.env)%Q).
    { apply Hclaim; vm_compute; reflexivity. }
    apply Qle_bool_iff in Hle. vm_compute in Hle. discriminate.
  - intros [n Hclaim].
    destruct (forever_passes n) as (s & Hex & Hth & Hev).
    specialize (Hclaim (Demo.passes n) s 0%nat
                  (Worker "c1" "power" 0 (L95 0)) Hex).
    rewrite Hth, Hev, work_count_passes in Hclaim.
    specialize (Hclaim eq_refl eq_refl). lia.
  - intros Hclaim.
    assert (Hr : @reachable Demo.env Demo.dead).
    { eapply demo_reachable. vm_compute. reflexivity. }
    apply (Hclaim Demo.dead 0%nat
             (Worker lone_surrogate "power" 0 (Raised At93)) Hr
             eq_refl eq_refl (Press 0 0 0)); vm_compute; reflexivity.
Qed.

Lemma C4_witness :
  "c1" <> "" /\ "nonexistent_key" <> ""
  /\ hw_calls
       (snd (@do_POST Demo.env (action_request "down" "c1" "nonexistent_key")
               initial))
     = [].
Proof.
  assert (Hc : "c1" <> "") by discriminate.
  assert (Hk : "nonexistent_key" <> "") by discriminate.
  split; [exact Hc|]. split; [exact Hk|].
  destruct (@C4_down_does_not_report_the_send Demo.env initial
              "c1" "nonexistent_key" Hc Hk) as (_ & Hhw & _).
  exact Hhw.
Defined.

(** A "down" for a key that is not in the key table: the initial send will
    fail with the unknown-key message, and the response is "started". *)
Lemma C4_counterexample : ~ @down_reports_initial_send Demo.env.
Proof.
  intros Hclaim.
  assert (Hc : "c1" <> "") by discriminate.
  assert (Hk : "nonexistent_key" <> "") by discriminate.
  assert (Hfree : active_presses initial !! ("c1", "nonexistent_key") = None).
  { vm_compute. reflexivity. }
  assert (Hsend : @send_scancodes_for_key Demo.env "nonexistent_key"
                    (hw_calls initial)
                  = ((false, "Unknown key: nonexistent_key"), [])).
  { vm_compute. reflexivity. }
  destruct (Hclaim initial "c1" "nonexistent_key" _ _ Hc Hk Hfree Hsend)
    as [code Hreply].
  vm_compute in Hreply. discriminate.
Qed.

Lemma C5_witness :
  @reachable Demo.env Demo.dead
  /\ threads Demo.dead !! 0%nat
     = Some (Worker lone_surrogate "power" 0 (Raised At93))
  /\ At93 <> At106
  /\ active_presses Demo.dead !! (lone_surrogate, "power")
     = Some (Press 0 0 0)
  /\ @do_POST Demo.env (action_request "down" lone_surrogate "power")
       Demo.dead
     = (ReplyMsg 200 "already down", Demo.dead).
Proof.
  assert (Hr : @reachable Demo.env Demo.dead).
  { eapply demo_reachable. vm_compute. reflexivity. }
  assert (Hw : threads Demo.dead !! 0%nat
               = Some (Worker lone_surrogate "power" 0 (Raised At93))).
  { vm_compute. reflexivity. }
  assert (Hl : At93 <> At106) by discriminate.
  split; [exact Hr|]. split; [exact Hw|]. split; [exact Hl|].
  destruct (@C5_exception_exit_keeps_the_entry Demo.env Demo.dead 0 _ At93
              Hr Hw eq_refl Hl) as (info & _ & Hall).
  destruct (Hall [] Demo.dead eq_refl) as (_ & _ & _ & Hdown & _).
  split; [|exact Hdown].
  vm_compute. reflexivity.
Defined.

Lemma C6_witness :
  (@KEYMAP Demo.env !! "nonexistent_key" = None
   \/ @KEYMAP Demo.env !! "nonexistent_key" = Some (JList []))
  /\ "nonexistent_key" <> "" /\ "c1" <> ""
  /\ @send_scancodes_for_key Demo.env "nonexistent_key" []
     = ((false, "Unknown key: nonexistent_key"), [])
  /\ @do_POST Demo.env (action_request "click" "c1" "nonexistent_key") initial
     = (ReplyError 500 "Unknown key: nonexistent_key", initial).
Proof.
  assert (Hkey : @KEYMAP Demo.env !! "nonexistent_key" = None
                 \/ @KEYMAP Demo.env !! "nonexistent_key" = Some (JList [])).
  { left. vm_compute. reflexivity. }
  assert (Hk : "nonexistent_key" <> "") by discriminate.
  assert (Hc : "c1" <> "") by discriminate.
  split; [exact Hkey|]. split; [exact Hk|]. split; [exact Hc|].
  exact (@C6_unknown_or_empty_key_sends_nothing Demo.env
           "nonexistent_key" "c1" [] initial Hkey Hk Hc).
Defined.

Lemma C7_witness :
  @KEYMAP Demo.env !! "power" = Some (JList [JStr "0x10"; JStr "0x11"])
  /\ [JStr "0x10"; JStr "0x11"] <> []
  /\ @send_scancodes_for_key Demo.env "power" []
     = ((true, "OK"),
        [Call ["ir-ctl"; "-d"; "/dev/lirc0"; "--scancode"; "nec:0x10"]
           Completed;
         Call ["ir-ctl"; "-d"; "/dev/lirc0"; "--scancode"; "nec:0x11"]
           Completed]).
Proof.
  assert (Hk : @KEYMAP Demo.env !! "power"
               = Some (JList [JStr "0x10"; JStr "0x11"])).
  { vm_compute. reflexivity. }
  assert (Hne : [JStr "0x10"; JStr "0x11"] <> []) by discriminate.
  split; [exact Hk|]. split; [exact Hne|].
  destruct (@C7_transmits_in_order_until_first_failure Demo.env
              "power" _ [] Hk Hne)
    as [(_ & Hsend) | (pre & sc & post & _ & _ & _ & Hsend)].
  - exact Hsend.
  - vm_compute in Hsend. discriminate.
Defined.




Lemma C10_witness :
  @reachable Demo.env Demo.stopping
  /\ threads Demo.stopping !! 0%nat
     = Some (Worker "c1" "power" 0 (L100 0 ((0 + (inject_Z 100 / 1000))%Q)))
  /\ events Demo.stopping !! 0%nat = Some true
  /\ @do_POST Demo.env (action_request "down" "c1" "power") Demo.stopping
     = (ReplyMsg 200 "already down", Demo.stopping).
Proof.
  assert (Hr : @reachable Demo.env Demo.stopping).
  { eapply demo_reachable. vm_compute. reflexivity. }
  assert (Hw : threads Demo.stopping !! 0%nat
               = Some (Worker "c1" "power" 0
                         (L100 0 ((0 + (inject_Z 100 / 1000))%Q)))).
  { vm_compute. reflexivity. }
  assert (Hset : events Demo.stopping !! 0%nat = Some true).
  { vm_compute. reflexivity. }
  split; [exact Hr|]. split; [exact Hw|]. split; [exact Hset|].
  destruct (@C10_no_new_press_while_stopping Demo.env Demo.stopping 0 _
              Hr Hw eq_refl Hset) as (Hdown & _); try discriminate.
  exact Hdown.
Defined.

(** The "up" arrives while the worker is in its initial send, which takes a
    second: ten intervals after the "up" the entry is still that of the
    signalled session. *)
Lemma C10_counterexample : ~ @stops_within Demo.env (@interval Demo.env).
Proof.
  intros Hclaim.
  assert (Hc : "c1" <> "") by discriminate.
  assert (Hk : "power" <> "") by discriminate.
  assert (H1 : @exec Demo.env Demo.to_send initial = Some Demo.sending).
  { vm_compute. reflexivity. }
  assert (Hi : active_presses Demo.sending !! ("c1", "power")
               = Some (Press 0 0 0)).
  { vm_compute. reflexivity. }
  assert (H2 : @exec Demo.env [Demo.up; Tick 1] Demo.sending
               = Some Demo.still_sending).
  { vm_compute. reflexivity. }
  assert (Hlate : (now Demo.sending + @interval Demo.env
                   < now Demo.still_sending)%Q).
  { vm_compute. reflexivity. }
  assert (Hi' : active_presses Demo.still_sending !! ("c1", "power")
                = Some (Press 0 0 0)).
  { vm_compute. reflexivity. }
  apply (Hclaim _ _ _ _ "c1" "power" _ Hc Hk H1 Hi H2 Hlate _ Hi').
  reflexivity.
Qed.


(** * Further properties of the code *)

Section Extras.

Context {env : Env}.

(** X1: the two timing options are floored, not rejected.  The interval of
    the loop is the requested number of milliseconds but never less than
    one millisecond; the maximal hold is the requested number of seconds
    but never less than a tenth of a second, whatever float the option
    was, so the wait of the loop is never empty and the hold check never
    fires at once.  A maximal hold of nan or -inf is replaced by the
    floor; one of inf is kept. *)
Theorem X1_timing_options_are_floored :
  ((1 # 1000) <= interval)%Q
  /\ (inject_Z repeat_interval / 1000 <= interval)%Q
  /\ ((interval == 1 # 1000)%Q
      \/ (interval == inject_Z repeat_interval / 1000)%Q)
  /\ fge MAX_HOLD_S (Finite (1 # 10)) = true
  /\ (fge MAX_HOLD_S max_hold = true \/ max_hold = NaN)
  /\ (MAX_HOLD_S = Finite (1 # 10) \/ MAX_HOLD_S = max_hold)
  /\ (forall m,
        max_hold = Finite m ->
        exists h,
          MAX_HOLD_S = Finite h /\ ((1 # 10) <= h)%Q /\ (m <= h)%Q
          /\ ((h == 1 # 10)%Q \/ (h == m)%Q))
  /\ (max_hold = PosInf -> MAX_HOLD_S = PosInf)
  /\ (max_hold = NaN \/ max_hold = NegInf -> MAX_HOLD_S = Finite (1 # 10)).
Proof.
  assert (Hint : ((1 # 1000) <= interval)%Q
                 /\ (inject_Z repeat_interval / 1000 <= interval)%Q
                 /\ ((interval == 1 # 1000)%Q
                     \/ (interval == inject_Z repeat_interval / 1000)%Q)).
  { unfold interval, REPEAT_INTERVAL_MS.
    assert (Hdiv : forall z : Z,
               (inject_Z z / 1000 == inject_Z z * (1 # 1000))%Q).
    { intros z. field. }
    rewrite !Hdiv.
    destruct (Z.max_spec 1 repeat_interval) as [[Hlt ->] | [Hle ->]].
    - assert (H1 : (1 <= inject_Z repeat_interval)%Q).
      { change 1%Q with (inject_Z 1). rewrite <- Zle_Qle. lia. }
      repeat split; try lra; try (right; lra).
    - assert (H1 : (inject_Z repeat_interval <= 1)%Q).
      { change 1%Q with (inject_Z 1). rewrite <- Zle_Qle. lia. }
      change (inject_Z 1) with 1%Q.
      repeat split; try lra; try (left; lra). }
  destruct Hint as (H1 & H2 & H3).
  split; [done|]. split; [done|]. split; [done|].
  unfold MAX_HOLD_S, py_max.
  destruct max_hold as [m| | |]; simpl.
  - destruct (Qle_bool m (1 # 10)) eqn:E; simpl.
    + pose proof E as Hle. apply Qle_bool_iff in Hle.
      split; [done|]. split; [by left|]. split; [by left|].
      split; [|split; [done | by intros [?|?]]].
      intros m' [= <-]. exists (1 # 10)%Q.
      split; [done|]. split; [lra|]. split; [lra|]. left. lra.
    + assert (Hlt : ((1 # 10) < m)%Q).
      { apply Qnot_le_lt. intros Hle. apply Qle_bool_iff in Hle. congruence. }
      split; [apply Qle_bool_iff; lra|].
      split; [left; apply Qle_bool_iff; lra|]. split; [by right|].
      split; [|split; [done | by intros [?|?]]].
      intros m' [= <-]. exists m.
      split; [done|]. split; [lra|]. split; [lra|]. right. lra.
  - split; [done|]. split; [by left|]. split; [by right|].
    split; [done|]. split; [done | by intros [?|?]].
  - split; [done|]. split; [by left|]. split; [by left|].
    split; [done|]. split; [done | done].
  - split; [done|]. split; [by right|]. split; [by left|].
    split; [done|]. split; [done | done].
Qed.

(** X2: a key whose definition is not a JSON list -- a single scancode
    written as a string or a number, say -- is refused like a key without
    scancodes, and nothing is transmitted. *)
Theorem X2_definition_that_is_no_list_sends_nothing key_name v calls :
  KEYMAP !! key_name = Some v -> is_list v = false ->
  send_scancodes_for_key key_name calls
  = ((false, "Key " +:+ key_name +:+ " has no scancodes"), calls).
Proof.
  intros Hk Hv. unfold send_scancodes_for_key. rewrite Hk.
  by destruct v.
Qed.

(** X3: a send reports success exactly when every scancode of a non-empty
    definition was transmitted and completed; whatever it reports, it
    appends at most one call per scancode of the definition to the log and
    removes none. *)
Theorem X3_send_succeeds_iff_all_completed key_name scs calls :
  KEYMAP !! key_name = Some (JList scs) ->
  exists new,
    snd (send_scancodes_for_key key_name calls) = calls ++ new
    /\ (length new <= length scs)%nat
    /\ (fst (fst (send_scancodes_for_key key_name calls)) = true
        <-> scs <> [] /\ length new = length scs
            /\ Forall (fun c => outcome c = Completed) new).
Proof.
  intros Hk. unfold send_scancodes_for_key. rewrite Hk.
  destruct scs as [|sc rest].
  - exists []. simpl. rewrite app_nil_r. repeat split; try done.
    by intros [? _].
  - destruct (send_each_log (sc :: rest) calls)
      as (new & Hlog & Hlen & _ & _ & Hok).
    exists new. split; [done|]. split; [done|]. rewrite Hok.
    split; [intros [? ?]; by repeat split | intros (_ & ? & ?); by split].
Qed.

(** X5: the server transmits nothing but scancodes of the key table.  In
    every reachable state each invocation in the log is the ir-ctl command
    for a scancode listed under some key of KEYMAP, and ended as the tool
    answered. *)
Theorem X5_only_scancodes_of_the_key_table s :
  reachable s -> from_table (hw_calls s).
Proof.
  intros [ls Hls].
  assert (Hgen : forall ls s0 s1,
             from_table (hw_calls s0) -> exec ls s0 = Some s1 ->
             from_table (hw_calls s1)).
  { clear. induction ls as [|l ls IH]; intros s0 s1 H0; simpl.
    - by intros [= <-].
    - destruct (step l s0) as [s2|] eqn:Hs; [|done].
      apply IH. destruct (step_logs _ _ _ Hs) as [_ [-> | [key ->]]];
        [done | by apply send_from_table]. }
  eapply Hgen; [|done]. intros i c Hc. by simplify_list_eq.
Qed.

(** X6: what a request can change, by its answer.  A request answered 404
    or 400 changes nothing.  A "click", answered "sent" or 500, changes
    only the log of invocations: no session is started, stopped or
    disturbed by it.  Every other answer leaves the log of invocations as
    it was: "down" and "up" never call the hardware themselves. *)
Theorem X6_what_a_request_changes r s :
  match fst (do_POST r s) with
  | NotFound | ReplyError 400 _ => snd (do_POST r s) = s
  | ReplyError _ _ | ReplyMsg _ "sent" =>
      control (snd (do_POST r s)) = control s
      /\ console (snd (do_POST r s)) = console s
  | ReplyMsg _ _ =>
      hw_calls (snd (do_POST r s)) = hw_calls s
      /\ console (snd (do_POST r s)) = console s
  end.
Proof.
  unfold do_POST, do_click, do_down, do_up.
  destruct (negb _); [done|].
  destruct (body r) as [e|action key client_id]; [done|].
  destruct (negb _); [done|].
  destruct (String.eqb _ "click").
  { by destruct (send_scancodes_for_key _ _) as [[[] msg] calls]. }
  destruct (String.eqb _ "down").
  { by destruct (active_presses s !! _). }
  destruct (String.eqb _ "up"); [|done].
  by destruct (active_presses s !! _).
Qed.

(** X7: no session exists for an empty client id or an empty key.  In
    every reachable state every entry of the registry and every worker
    thread has a non-empty client id and a non-empty key: the check of
    l.155 comes before the registry is touched. *)
Theorem X7_sessions_have_client_and_key s : reachable s -> named s.
Proof. apply reachable_named. Qed.


(** X8: a stop event is never cleared and a thread never changes hands.
    Along every run a flag that is set stays set, and a thread keeps its
    client id, its key and its stop event; only its position moves. *)
Theorem X8_flags_and_threads_are_stable ls : forall s s',
  exec ls s = Some s' ->
  (forall i, events s !! i = Some true -> events s' !! i = Some true)
  /\ (forall tid w,
        threads s !! tid = Some w ->
        exists p,
          threads s' !! tid
          = Some (Worker (w_client w) (w_key w) (w_stop w) p)).
Proof.
  induction ls as [|l ls IH]; intros s s'; simpl.
  - intros [= <-]. split; [done|]. intros tid w Hw.
    exists (w_pc w). rewrite Hw. by destruct w.
  - destruct (step l s) as [s1|] eqn:Hs; [|done]. intros Hex.
    destruct (IH _ _ Hex) as [Hflag Hthr]. split.
    + intros i Hi. apply Hflag. by apply (step_flags _ _ _ i Hs).
    + intros tid w Hw.
      destruct (step_thread _ _ _ _ _ Hs Hw) as [p1 Hw1].
      destruct (Hthr _ _ Hw1) as [p Hw']. by exists p.
Qed.

(** X9: an "up" signals its own session only.  In a reachable state the
    stop event of every worker other than the one registered for the pair
    is as it was after the "up": releasing one key never stops another
    key, nor the same key held by another client. *)
Theorem X9_up_signals_only_its_session s client_id key info tid w :
  reachable s -> client_id <> "" -> key <> "" ->
  active_presses s !! (client_id, key) = Some info ->
  threads s !! tid = Some w -> tid <> thread info ->
  events (snd (do_POST (action_request "up" client_id key) s)) !! w_stop w
  = events s !! w_stop w.
Proof.
  intros Hr Hc Hk Hi Hw Hne.
  destruct (reachable_invariant _ Hr) as [Hcons _].
  destruct (reachable_own_events _ Hr) as [_ Hown].
  destruct (entry_worker _ Hcons _ _ Hi) as (w0 & Hw0 & _ & Hs0 & _).
  rewrite do_POST_action by done. simpl. unfold do_up. rewrite Hi. simpl.
  apply list_lookup_insert_ne.
  rewrite <- Hs0, (Hown _ _ Hw0), (Hown _ _ Hw). congruence.
Qed.

(** X10: the [finally] block of the main program signals every registered
    session and touches nothing else.  In a reachable state, after the
    block the stop event of every entry is set, the flag of every worker
    that has removed its entry is as it was, and registry, threads and
    log are untouched. *)
Theorem X10_shutdown_signals_every_session s :
  reachable s ->
  (forall k info,
      active_presses s !! k = Some info ->
      events (shutdown s) !! stop_event info = Some true)
  /\ (forall tid w,
        threads s !! tid = Some w -> live w = false ->
        events (shutdown s) !! w_stop w = events s !! w_stop w)
  /\ (active_presses (shutdown s) = active_presses s
      /\ threads (shutdown s) = threads s
      /\ hw_calls (shutdown s) = hw_calls s
      /\ console (shutdown s) = console s /\ now (shutdown s) = now s).
Proof.
  intros Hr.
  destruct (reachable_invariant _ Hr) as [Hcons _].
  destruct (reachable_own_events _ Hr) as [_ Hown].
  split; [|split; [|done]].
  - intros k info Hi. unfold shutdown. simpl.
    apply (set_all_sets _ k); [by apply elem_of_map_to_list|].
    destruct (entry_worker _ Hcons _ _ Hi) as (w & Hw & _ & <- & _).
    by eapply stop_allocated.
  - intros tid w Hw Hdead. unfold shutdown. simpl.
    apply set_all_other. intros k info Hin%elem_of_map_to_list Heq.
    destruct (entry_worker _ Hcons _ _ Hin) as (w0 & Hw0 & _ & Hs0 & Hl0).
    rewrite <- Hs0, (Hown _ _ Hw0), (Hown _ _ Hw) in Heq.
    rewrite Heq, Hw in Hw0. simplify_eq. congruence.
Qed.


(** X11: a tap transmits exactly once.  When "down" for a free pair is
    followed by "up" before the new thread has run, and stdout encodes the
    two lines the thread prints, the thread still makes its initial send
    -- one call of send_scancodes_for_key, whose result it prints -- then
    finds its stop event set, skips the loop and removes the entry: the
    registry is as before the "down". *)
Theorem X11_a_tap_sends_once s client_id key :
  client_id <> "" -> key <> "" ->
  active_presses s !! (client_id, key) = None ->
  let tid := length (threads s) in
  let sent := send_scancodes_for_key key (hw_calls s) in
  let line :=
    send_line client_id key false (fst (fst sent)) (snd (fst sent)) in
  stdout_encodes line = true ->
  stdout_encodes (exit_line client_id key) = true ->
  int_too_large = false ->
  exec [Post (action_request "down" client_id key);
        Post (action_request "up" client_id key);
        Work tid; Work tid; Work tid; Work tid] s
  = Some {| now := now s;
            active_presses := active_presses s;
            events := events s ++ [true];
            threads :=
              threads s ++ [Worker client_id key (length (events s)) Exited];
            hw_calls := snd sent;
            console := console s ++ [line; exit_line client_id key] |}.
Proof.
  intros Hc Hk Hfree tid sent line Hline Hexit Hint.
  set (st := fun p evs reg hw co =>
    {| now := now s; active_presses := reg; events := evs;
       threads := threads s ++ [Worker client_id key (length (events s)) p];
       hw_calls := hw; console := co |}).
  assert (Hset : forall p p' evs reg hw co,
             set_pc tid (Worker client_id key (length (events s)) p) p'
               (st p evs reg hw co)
             = st p' evs reg hw co).
  { intros. unfold set_pc, st, tid. simpl. f_equal.
    rewrite insert_app_r_alt by lia. by rewrite Nat.sub_diag. }
  assert (Hwork : forall p reg hw co,
             work tid (st p (events s ++ [true]) reg hw co)
             = match repeat_thread_func (now s) true p with
               | Some (p', effs) =>
                   let '(s1, r) :=
                     run_effects (Worker client_id key (length (events s)) p)
                       effs (st p (events s ++ [true]) reg hw co) in
                   Some (set_pc tid
                           (Worker client_id key (length (events s)) p)
                           (landing p' r) s1)
               | None => None
               end).
  { intros. unfold work, st, tid. simpl.
    rewrite !list_lookup_middle by done. simpl. done. }
  cbn [exec step].
  rewrite !do_POST_action by done. simpl.
  unfold do_down at 1. rewrite Hfree. cbn [snd].
  unfold do_up. cbn [active_presses]. rewrite lookup_insert_eq. cbn [snd].
  cbn [stop_event events now threads hw_calls console].
  rewrite insert_app_r_alt by lia. rewrite Nat.sub_diag. simpl insert.
  fold (st L91 (events s ++ [true])
          (<[(client_id, key) := Press (length (threads s)) (length (events s))
                                   (now s)]> (active_presses s))
          (hw_calls s) (console s)).
  rewrite Hwork. simpl. rewrite Hset.
  rewrite Hwork. simpl.
  subst line. fold sent. fold sent in Hline. clearbody sent.
  destruct sent as [[ok msg] calls]. simpl in Hline |- *.
  unfold print. simpl. rewrite Hline, Hint. simpl.
  fold (st (L92 (now s)) (events s ++ [true])
          (<[(client_id, key) := Press (length (threads s)) (length (events s))
                                   (now s)]> (active_presses s))
          calls (console s ++ [send_line client_id key false ok msg])).
  rewrite Hset.
  rewrite Hwork. simpl. rewrite Hset.
  rewrite Hwork. simpl. unfold print. simpl. rewrite Hexit. simpl.
  fold (st L104 (events s ++ [true])
          (delete (client_id, key)
             (<[(client_id, key) := Press (length (threads s))
                                      (length (events s)) (now s)]>
                (active_presses s)))
          calls
          ((console s ++ [send_line client_id key false ok msg])
             ++ [exit_line client_id key])).
  rewrite Hset. unfold st.
  rewrite delete_insert_id by done. by rewrite <- app_assoc.
Qed.


(** X12: the sends of a session are bounded when the maximal hold is
    finite.  With [MAX_HOLD_S] the finite [h], in every run of the server
    a worker thread calls send_scancodes_for_key at most
    ceil(h / interval) + 1 times, the initial send included, whatever the
    requests, the delays, the answers of the tool and the exceptions. *)
Theorem X12_sends_of_a_session_are_bounded h ls tid :
  MAX_HOLD_S = Finite h ->
  (send_count tid ls initial <= max_iterations h + 1)%nat.
Proof.
  intros Hh. apply (send_count_budget h Hh). unfold sends_budget. simpl. done.
Qed.

(** X13: repeat sends are at least an interval apart.  From a state in
    which a worker is at the loop test, its last send having returned, to
    any later state in which it is about to send again, the clock has
    advanced by the interval or more: the wait of l.100 is never cut short
    into a send. *)
Theorem X13_repeat_sends_are_an_interval_apart ls s s' tid w w' start start' :
  exec ls s = Some s' ->
  threads s !! tid = Some w -> w_pc w = L95 start ->
  threads s' !! tid = Some w' -> w_pc w' = L102 start' ->
  (now s + interval <= now s')%Q.
Proof.
  intros Hex Hw Hpc Hw' Hpc'.
  destruct (exec_spaced ls s s' tid (now s)) as (w1 & Hw1 & Hsp); [|done|].
  - exists w. split; [done|]. rewrite Hpc. simpl. lra.
  - rewrite Hw' in Hw1. injection Hw1 as <-. by rewrite Hpc' in Hsp.
Qed.

(** X14: a new press starts with an event of its own.  A "down" for a free
    pair in a reachable state registers a thread at its first statement
    whose stop event is new and unset: it is the event of no thread
    started before, and the flags of the earlier events are as they were.
    A flag set by an earlier "up" therefore never stops a later press. *)
Theorem X14_a_new_press_gets_a_fresh_event s client_id key :
  reachable s -> client_id <> "" -> key <> "" ->
  active_presses s !! (client_id, key) = None ->
  exists info w,
    active_presses (snd (do_POST (action_request "down" client_id key) s))
      !! (client_id, key) = Some info
    /\ threads (snd (do_POST (action_request "down" client_id key) s))
         !! thread info = Some w
    /\ pair_of w = (client_id, key) /\ w_pc w = L91
    /\ w_stop w = stop_event info
    /\ events (snd (do_POST (action_request "down" client_id key) s))
         !! stop_event info = Some false
    /\ (forall tid w0, threads s !! tid = Some w0 -> w_stop w0 <> stop_event info)
    /\ (forall i b,
          events s !! i = Some b ->
          events (snd (do_POST (action_request "down" client_id key) s)) !! i
          = Some b).
Proof.
  intros Hr Hc Hk Hfree.
  destruct (reachable_invariant _ Hr) as [Hcons _].
  rewrite do_POST_action by done. simpl. unfold do_down. rewrite Hfree. simpl.
  eexists _, _. split; [apply lookup_insert_eq|]. simpl.
  split; [by apply list_lookup_middle|]. repeat split.
  - by apply list_lookup_middle.
  - intros tid w0 Hw0. pose proof (stop_allocated _ Hcons _ _ Hw0). lia.
  - intros i b Hi. by apply lookup_app_l_Some.
Qed.

(** X15: a pair is registered exactly while one of its threads is alive.
    In every reachable state the registry has an entry for (client, key)
    if and only if some thread started for the pair has not yet executed
    its pop: the entry outlives an "up" and a shutdown until the thread
    itself removes it, and is gone as soon as the thread has. *)
Theorem X15_registered_while_a_thread_is_alive s client_id key :
  reachable s ->
  (is_Some (active_presses s !! (client_id, key))
   <-> exists tid w,
         threads s !! tid = Some w /\ pair_of w = (client_id, key)
         /\ live w = true).
Proof.
  intros Hr. destruct (reachable_invariant _ Hr) as [Hcons _]. split.
  - intros [info Hi].
    destruct (entry_worker _ Hcons _ _ Hi) as (w & Hw & Hp & _ & Hl).
    by exists (thread info), w.
  - intros (tid & w & Hw & Hp & Hl).
    destruct (worker_entry _ Hcons _ _ Hw Hl) as (info & Hi & _).
    rewrite Hp in Hi. by exists info.
Qed.

Lemma replace_absent old new : forall s,
  occurs old s = false -> replace_from old new 0 s = s.
Proof.
  induction s as [|c s IH]; [done|].
  intros [Hp Ho]%orb_false_iff.
  cbn [replace_from]. rewrite Hp. f_equal. by apply IH.
Qed.

(** X16: a template without placeholders is served as it is.  When none
    of the five placeholders occurs in the template, GET / and
    GET /index.html answer 200 with the template itself, for every
    generated uuid and whatever the key table and the options are. *)
Theorem X16_page_without_placeholders_is_the_template
  HTML_TEMPLATE dumps_KEYMAP dumps_KEY_LAYOUT gen_uuid :
  occurs "__KEYMAP_JSON__" HTML_TEMPLATE = false ->
  occurs "__KEY_LAYOUT_JSON__" HTML_TEMPLATE = false ->
  occurs "__REPEAT_INTERVAL__" HTML_TEMPLATE = false ->
  occurs "__MAX_HOLD__" HTML_TEMPLATE = false ->
  occurs "__GEN_UUID__" HTML_TEMPLATE = false ->
  do_GET HTML_TEMPLATE dumps_KEYMAP dumps_KEY_LAYOUT "/" gen_uuid
  = Html 200 HTML_TEMPLATE
  /\ do_GET HTML_TEMPLATE dumps_KEYMAP dumps_KEY_LAYOUT "/index.html" gen_uuid
     = Html 200 HTML_TEMPLATE.
Proof.
  intros H1 H2 H3 H4 H5.
  assert (Hr : render HTML_TEMPLATE dumps_KEYMAP dumps_KEY_LAYOUT gen_uuid
               = HTML_TEMPLATE).
  { unfold render, py_replace.
    rewrite (replace_absent "__KEYMAP_JSON__") by done.
    rewrite (replace_absent "__KEY_LAYOUT_JSON__") by done.
    rewrite (replace_absent "__REPEAT_INTERVAL__") by done.
    rewrite (replace_absent "__MAX_HOLD__") by done.
    by rewrite (replace_absent "__GEN_UUID__"). }
  unfold do_GET. simpl. by rewrite Hr.
Qed.



(** X18: the exits of the loop lead to the pop, and the pop comes after
    the last send.  A statement of the loop leads back into the loop or to
    l.104, or raises for the cause of its site; the statement at l.104
    removes the entry of the thread's pair, invokes nothing and ends the
    thread, by return or at the print of l.106; and in a reachable state
    the entry of a worker that has not popped is removed by no transition
    but that worker's own statement at l.104. *)
Theorem X18_loop_exits_reach_the_pop s tid w :
  reachable s -> threads s !! tid = Some w ->
  (forall s' w',
      in_loop (w_pc w) = true ->
      step (Work tid) s = Some s' -> threads s' !! tid = Some w' ->
      in_loop (w_pc w') = true \/ w_pc w' = L104
      \/ exists l, w_pc w' = Raised l /\ raises w s l)
  /\ (w_pc w = L104 ->
      exists s' q,
        step (Work tid) s = Some s'
        /\ threads s' !! tid
           = Some (Worker (w_client w) (w_key w) (w_stop w) q)
        /\ (q = Exited \/ q = Raised At106)
        /\ active_presses s' = delete (pair_of w) (active_presses s)
        /\ hw_calls s' = hw_calls s)
  /\ (forall l s',
        live w = true -> step l s = Some s' ->
        active_presses s' !! pair_of w = None ->
        l = Work tid /\ w_pc w = L104).
Proof.
  intros Hr Hw.
  destruct (reachable_invariant _ Hr) as [Hcons _].
  pose proof (lookup_lt_Some _ _ _ Hw) as Hlt.
  split; [|split].
  - intros s' w' Hin Hstep Hw'. simpl in Hstep.
    destruct (w_pc w') as [| | | | | | | |l] eqn:Hpc';
      try (right; right; exists l; split;
           [done | by eapply work_raises]).
    all: pose proof Hstep as Hfr;
      apply work_frame in Hfr
        as (w0 & p & effs & q & Hw0 & Hts & _ & _ & Hth & _ & Hq);
      rewrite Hw in Hw0; injection Hw0 as <-;
      rewrite Hth, list_lookup_insert_eq in Hw' by done;
      injection Hw' as <-; simpl in Hpc';
      destruct Hq as [-> | (l & -> & _)]; [|done];
      destruct (loop_leads _ _ _ _ _ Hin Hts) as [Hl | [Hl | Hl]];
      rewrite Hpc' in Hl; auto; done.
  - intros Hpc. simpl. unfold work. rewrite Hw, Hpc. simpl. unfold print.
    destruct (stdout_encodes _); simpl; eexists; eexists;
      (split; [done|]); simpl;
      (split; [by apply list_lookup_insert_eq|]); auto.
  - intros l s' Hlive Hstep Hnone.
    destruct (worker_entry _ Hcons _ _ Hw Hlive) as (info & Hi & Hti).
    destruct (step_removal _ _ _ _ _ Hstep Hi Hnone)
      as (tid' & w' & -> & Hw' & Hpc' & Hp).
    assert (tid' = tid).
    { eapply live_unique; try done. unfold live. by rewrite Hpc'. }
    subst tid'. rewrite Hw in Hw'. by simplify_eq.
Qed.

End Extras.

(** * The further properties on the concrete installation *)

Lemma X2_witness :
  @KEYMAP Sample.scalar_env !! "power" = Some (JStr "0x10")
  /\ is_list (JStr "0x10") = false
  /\ @send_scancodes_for_key Sample.scalar_env "power" []
     = ((false, "Key power has no scancodes"), []).
Proof.
  assert (Hk : @KEYMAP Sample.scalar_env !! "power" = Some (JStr "0x10")).
  { vm_compute. reflexivity. }
  assert (Hv : is_list (JStr "0x10") = false) by reflexivity.
  split; [exact Hk|]. split; [exact Hv|].
  exact (@X2_definition_that_is_no_list_sends_nothing
           Sample.scalar_env "power" (JStr "0x10") [] Hk Hv).
Defined.

Lemma X3_witness :
  @KEYMAP Demo.env !! "power" = Some (JList [JStr "0x10"; JStr "0x11"])
  /\ exists new,
       snd (@send_scancodes_for_key Demo.env "power" []) = [] ++ new
       /\ (length new <= 2)%nat
       /\ (fst (fst (@send_scancodes_for_key Demo.env "power" [])) = true
           <-> [JStr "0x10"; JStr "0x11"] <> [] /\ length new = 2%nat
               /\ Forall (fun c => outcome c = Completed) new).
Proof.
  assert (Hk : @KEYMAP Demo.env !! "power"
               = Some (JList [JStr "0x10"; JStr "0x11"])).
  { vm_compute. reflexivity. }
  split; [exact Hk|].
  exact (@X3_send_succeeds_iff_all_completed Demo.env "power" _ [] Hk).
Defined.

Lemma X5_witness :
  @reachable Demo.env Demo.held /\ @from_table Demo.env (hw_calls Demo.held).
Proof.
  assert (Hr : @reachable Demo.env Demo.held).
  { eapply demo_reachable. vm_compute. reflexivity. }
  split; [exact Hr|].
  exact (@X5_only_scancodes_of_the_key_table Demo.env Demo.held Hr).
Defined.

Lemma X7_witness :
  @reachable Demo.env Sample.two_held /\ named Sample.two_held.
Proof.
  assert (Hr : @reachable Demo.env Sample.two_held).
  { eapply demo_reachable. vm_compute. reflexivity. }
  split; [exact Hr|].
  exact (@X7_sessions_have_client_and_key Demo.env Sample.two_held Hr).
Defined.

Lemma X8_witness :
  @exec Demo.env Sample.release Demo.stopping = Some Sample.released
  /\ (forall i,
        events Demo.stopping !! i = Some true ->
        events Sample.released !! i = Some true)
  /\ (forall tid w,
        threads Demo.stopping !! tid = Some w ->
        exists p,
          threads Sample.released !! tid
          = Some (Worker (w_client w) (w_key w) (w_stop w) p)).
Proof.
  assert (Hex : @exec Demo.env Sample.release Demo.stopping
                = Some Sample.released).
  { vm_compute. reflexivity. }
  split; [exact Hex|].
  exact (@X8_flags_and_threads_are_stable Demo.env _ Demo.stopping
           Sample.released Hex).
Defined.

Lemma X9_witness :
  @reachable Demo.env Sample.two_held
  /\ active_presses Sample.two_held !! ("c1", "power") = Some (Press 0 0 0)
  /\ threads Sample.two_held !! 1%nat = Some (Worker "c2" "power" 1 L91)
  /\ events (snd (@do_POST Demo.env (action_request "up" "c1" "power")
                    Sample.two_held)) !! 1%nat
     = events Sample.two_held !! 1%nat.
Proof.
  assert (Hr : @reachable Demo.env Sample.two_held).
  { eapply demo_reachable. vm_compute. reflexivity. }
  assert (Hc : "c1" <> "") by discriminate.
  assert (Hk : "power" <> "") by discriminate.
  assert (Hi : active_presses Sample.two_held !! ("c1", "power")
               = Some (Press 0 0 0)).
  { vm_compute. reflexivity. }
  assert (Hw : threads Sample.two_held !! 1%nat
               = Some (Worker "c2" "power" 1 L91)).
  { vm_compute. reflexivity. }
  assert (Hne : 1%nat <> thread (Press 0 0 0)) by discriminate.
  split; [exact Hr|]. split; [exact Hi|]. split; [exact Hw|].
  exact (@X9_up_signals_only_its_session Demo.env Sample.two_held "c1" "power"
           (Press 0 0 0) 1 (Worker "c2" "power" 1 L91) Hr Hc Hk Hi Hw Hne).
Defined.

Lemma X10_witness :
  @reachable Demo.env Sample.two_held
  /\ events Sample.two_held !! 1%nat = Some false
  /\ events (shutdown Sample.two_held) !! 1%nat = Some true.
Proof.
  assert (Hr : @reachable Demo.env Sample.two_held).
  { eapply demo_reachable. vm_compute. reflexivity. }
  split; [exact Hr|]. split; [vm_compute; reflexivity|].
  destruct (@X10_shutdown_signals_every_session Demo.env Sample.two_held Hr)
    as (Hset & _).
  apply (Hset ("c2", "power") (Press 1 1 0)). vm_compute. reflexivity.
Defined.

Lemma X11_witness :
  @stdout_encodes Demo.env
    "[c1] power initial send -> True, OK" = true
  /\ @stdout_encodes Demo.env "[c1] power thread exit." = true
  /\ @int_too_large Demo.env = false
  /\ @exec Demo.env Sample.tap initial
     = Some {| now := 0; active_presses := ∅; events := [true];
               threads := [Worker "c1" "power" 0 Exited];
               hw_calls := snd (@send_scancodes_for_key Demo.env "power" []);
               console :=
                 ["[c1] power initial send -> True, OK";
                  "[c1] power thread exit."] |}.
Proof.
  assert (Hc : "c1" <> "") by discriminate.
  assert (Hk : "power" <> "") by discriminate.
  assert (Hfree : active_presses initial !! ("c1", "power") = None).
  { vm_compute. reflexivity. }
  assert (Hline : @stdout_encodes Demo.env
                    "[c1] power initial send -> True, OK" = true).
  { vm_compute. reflexivity. }
  assert (Hexit : @stdout_encodes Demo.env "[c1] power thread exit."
                  = true).
  { vm_compute. reflexivity. }
  assert (Hint : @int_too_large Demo.env = false).
  { vm_compute. reflexivity. }
  split; [exact Hline|]. split; [exact Hexit|]. split; [exact Hint|].
  etransitivity;
    [exact (@X11_a_tap_sends_once Demo.env initial "c1" "power" Hc Hk Hfree
              Hline Hexit Hint)|].
  vm_compute. reflexivity.
Defined.

Lemma X12_witness :
  @MAX_HOLD_S Demo.env = Finite 5
  /\ (@send_count Demo.env 0 Demo.slow_sends initial
      <= @max_iterations Demo.env 5 + 1)%nat.
Proof.
  assert (Hh : @MAX_HOLD_S Demo.env = Finite 5).
  { vm_compute. reflexivity. }
  split; [exact Hh|].
  exact (@X12_sends_of_a_session_are_bounded Demo.env 5 Demo.slow_sends 0 Hh).
Defined.

Lemma X13_witness :
  @exec Demo.env Sample.to_due Demo.sending = Some Sample.due
  /\ threads Demo.sending !! 0%nat = Some (Worker "c1" "power" 0 (L95 0))
  /\ threads Sample.due !! 0%nat = Some (Worker "c1" "power" 0 (L102 0))
  /\ (now Demo.sending + @interval Demo.env <= now Sample.due)%Q.
Proof.
  assert (Hex : @exec Demo.env Sample.to_due Demo.sending = Some Sample.due).
  { vm_compute. reflexivity. }
  assert (Hw : threads Demo.sending !! 0%nat
               = Some (Worker "c1" "power" 0 (L95 0))).
  { vm_compute. reflexivity. }
  assert (Hw' : threads Sample.due !! 0%nat
                = Some (Worker "c1" "power" 0 (L102 0))).
  { vm_compute. reflexivity. }
  split; [exact Hex|]. split; [exact Hw|]. split; [exact Hw'|].
  exact (@X13_repeat_sends_are_an_interval_apart Demo.env _ _ _ 0%nat _ _ 0 0
           Hex Hw eq_refl Hw' eq_refl).
Defined.

Lemma X14_witness :
  @reachable Demo.env Sample.tapped
  /\ events Sample.tapped !! 0%nat = Some true
  /\ active_presses Sample.tapped !! ("c1", "power") = None
  /\ exists info w,
       active_presses
         (snd (@do_POST Demo.env (action_request "down" "c1" "power")
                 Sample.tapped)) !! ("c1", "power") = Some info
       /\ threads
            (snd (@do_POST Demo.env (action_request "down" "c1" "power")
                    Sample.tapped)) !! thread info = Some w
       /\ w_stop w = stop_event info
       /\ events
            (snd (@do_POST Demo.env (action_request "down" "c1" "power")
                    Sample.tapped)) !! stop_event info = Some false.
Proof.
  assert (Hr : @reachable Demo.env Sample.tapped).
  { eapply demo_reachable. vm_compute. reflexivity. }
  assert (Hc : "c1" <> "") by discriminate.
  assert (Hk : "power" <> "") by discriminate.
  assert (Hfree : active_presses Sample.tapped !! ("c1", "power") = None).
  { vm_compute. reflexivity. }
  split; [exact Hr|]. split; [vm_compute; reflexivity|].
  split; [exact Hfree|].
  destruct (@X14_a_new_press_gets_a_fresh_event Demo.env Sample.tapped
              "c1" "power" Hr Hc Hk Hfree)
    as (info & w & Hi & Hw & _ & _ & Hs & Hev & _).
  exists info, w. split; [exact Hi|]. split; [exact Hw|].
  split; [exact Hs | exact Hev].
Defined.

Lemma X15_witness :
  @reachable Demo.env Demo.stopping
  /\ is_Some (active_presses Demo.stopping !! ("c1", "power"))
  /\ exists tid w,
       threads Demo.stopping !! tid = Some w
       /\ pair_of w = ("c1", "power") /\ live w = true.
Proof.
  assert (Hr : @reachable Demo.env Demo.stopping).
  { eapply demo_reachable. vm_compute. reflexivity. }
  assert (Hi : is_Some (active_presses Demo.stopping !! ("c1", "power"))).
  { eexists. vm_compute. reflexivity. }
  split; [exact Hr|]. split; [exact Hi|].
  destruct (@X15_registered_while_a_thread_is_alive Demo.env Demo.stopping
              "c1" "power" Hr) as [Hto _].
  exact (Hto Hi).
Defined.

Lemma X16_witness :
  occurs "__GEN_UUID__" Sample.template = false
  /\ @do_GET Demo.env Sample.template "{}" "[]" "/"
       "0b0f4a52-5a4e-4c43-9c3e-0d3d3c1b7a11"
     = Html 200 Sample.template
  /\ @do_GET Demo.env Sample.template "{}" "[]" "/index.html"
       "0b0f4a52-5a4e-4c43-9c3e-0d3d3c1b7a11"
     = Html 200 Sample.template.
Proof.
  assert (H1 : occurs "__KEYMAP_JSON__" Sample.template = false).
  { vm_compute. reflexivity. }
  assert (H2 : occurs "__KEY_LAYOUT_JSON__" Sample.template = false).
  { vm_compute. reflexivity. }
  assert (H3 : occurs "__REPEAT_INTERVAL__" Sample.template = false).
  { vm_compute. reflexivity. }
  assert (H4 : occurs "__MAX_HOLD__" Sample.template = false).
  { vm_compute. reflexivity. }
  assert (H5 : occurs "__GEN_UUID__" Sample.template = false).
  { vm_compute. reflexivity. }
  split; [exact H5|].
  exact (@X16_page_without_placeholders_is_the_template Demo.env
           Sample.template "{}" "[]" "0b0f4a52-5a4e-4c43-9c3e-0d3d3c1b7a11"
           H1 H2 H3 H4 H5).
Defined.


Lemma X18_witness :
  @reachable Demo.env Demo.at_pop
  /\ threads Demo.at_pop !! 0%nat = Some (Worker "c1" "power" 0 L104)
  /\ exists s',
       @step Demo.env (Work 0) Demo.at_pop = Some s'
       /\ active_presses s'
          = delete ("c1", "power") (active_presses Demo.at_pop)
       /\ hw_calls s' = hw_calls Demo.at_pop.
Proof.
  assert (Hr : @reachable Demo.env Demo.at_pop).
  { eapply demo_reachable. vm_compute. reflexivity. }
  assert (Hw : threads Demo.at_pop !! 0%nat
               = Some (Worker "c1" "power" 0 L104)).
  { vm_compute. reflexivity. }
  split; [exact Hr|]. split; [exact Hw|].
  destruct (@X18_loop_exits_reach_the_pop Demo.env Demo.at_pop 0 _ Hr Hw)
    as (_ & Hpop & _).
  destruct (Hpop eq_refl) as (s' & q & Hstep & _ & _ & Hreg & Hhw).
  exists s'. split; [exact Hstep|]. split; [exact Hreg | exact Hhw].
Defined.
